(** * pibooth: the OpenCV camera driver ([pibooth/controls/camera/opencv.py])

    A shallow embedding of [CvCamera] and of the library calls it makes
    (numpy, cv2, pygame), followed by the properties of the preview and
    capture pipeline. *)

From Stdlib Require Import ZArith QArith Qround List String Ascii Bool Lia.
From Stdlib Require Import DecimalString Sorted Lqa.
From stdpp Require Import gmap strings list fin_maps.

Local Open Scope string_scope.
Local Open Scope Z_scope.

(** ** Python values, exceptions and outcomes *)

Inductive exn : Type :=
| ValueError | IOError | KeyError | TypeError | AttributeError | CvError.

(** What a call does: return a value, raise, or still run when the
    iteration budget of a loop is used up. *)
Inductive outcome (A : Type) : Type :=
| Ret (a : A)
| Raise (e : exn)
| Running.
Arguments Ret {A} a.
Arguments Raise {A} e.
Arguments Running {A}.

Inductive py_value : Type :=
| PyNone
| PyBool (b : bool)
| PyInt (z : Z)
| PyStr (s : string).

(** [str(int)]: decimal digits, a leading minus sign for negatives. *)
Definition str_of_Z (z : Z) : string := NilZero.string_of_int (Z.to_int z).

(** [str(x)] *)
Definition py_str (v : py_value) : string :=
  match v with
  | PyNone => "None"
  | PyBool true => "True"
  | PyBool false => "False"
  | PyInt z => str_of_Z z
  | PyStr s => s
  end.

Definition lower_ascii (c : ascii) : ascii :=
  let n := nat_of_ascii c in
  if ((65 <=? n) && (n <=? 90))%nat then ascii_of_nat (n + 32) else c.

(** [s.lower()], on the ASCII letters; every other byte is kept. *)
Fixpoint lower (s : string) : string :=
  match s with
  | EmptyString => EmptyString
  | String c r => String (lower_ascii c) (lower r)
  end.

(** [x in l] for a list of strings. *)
Definition py_in (x : string) (l : list string) : bool :=
  existsb (String.eqb x) l.

(** [int(x)] of a number: truncation towards zero. *)
Definition py_int (x : Q) : Z := Z.quot (Qnum x) (Z.pos (Qden x)).

(** ** numpy arrays and the cv2 calls of the driver *)

(** An image is a list of rows; a pixel is a tuple of 8-bit channels. *)
Abbreviation array2 A := (list (list A)).
Definition pix3 : Type := (Z * Z * Z)%type.
Definition pix4 : Type := (Z * Z * Z * Z)%type.

Definition nrows {A} (a : array2 A) : nat := length a.
Definition ncols {A} (a : array2 A) : nat :=
  match a with
  | [] => O
  | r :: _ => length r
  end.

(** [a.shape[:2]], as (height, width). *)
Definition shape {A} (a : array2 A) : nat * nat := (nrows a, ncols a).

(** Every row of [a] has [w] entries and there are [h] rows. *)
Definition has_shape {A} (h w : nat) (a : array2 A) : Prop :=
  length a = h ∧ Forall (λ r, length r = w) a.

Definition is_empty {A} (a : array2 A) : bool :=
  (nrows a =? 0)%nat || (ncols a =? 0)%nat.

Definition pixel_at {A} (a : array2 A) (y x : nat) : option A :=
  a !! y ≫= (λ r, r !! x).

(** 8-bit luminance of cv2, in 14-bit fixed point:
    0.299 R + 0.587 G + 0.114 B, rounded. *)
Definition gray_of_rgb (r g b : Z) : Z :=
  Z.shiftr (r * 4899 + g * 9617 + b * 1868 + 8192) 14.

(** [cv2.cvtColor(src, code)] refuses an empty source. *)
Definition cvtColor {A B} (f : A → B) (src : array2 A) : outcome (array2 B) :=
  if is_empty src then Raise CvError else Ret (map (map f) src).

(** COLOR_RGBA2GRAY: the alpha channel is dropped. *)
Definition RGBA2GRAY (p : pix4) : Z :=
  let '(r, g, b, _) := p in gray_of_rgb r g b.

(** COLOR_RGBA2RGB *)
Definition RGBA2RGB (p : pix4) : pix3 :=
  let '(r, g, b, _) := p in (r, g, b).

(** COLOR_BGR2RGB *)
Definition BGR2RGB (p : pix3) : pix3 :=
  let '(b, g, r) := p in (r, g, b).

(** [cv2.threshold(src, thresh, maxval, cv2.THRESH_BINARY_INV)[1]]:
    0 where [src > thresh], [maxval] elsewhere. *)
Definition threshold_binary_inv (thresh maxval : Z) (src : array2 Z) : array2 Z :=
  map (map (λ v, if thresh <? v then 0 else maxval)) src.

(** [np.repeat(a, n)]: the flattened array, every entry [n] times. *)
Definition np_repeat {A} (a : array2 A) (n : nat) : list A :=
  flat_map (λ v, repeat v n) (concat a).

Fixpoint triples {A} (l : list A) : list (A * A * A) :=
  match l with
  | a :: b :: c :: r => (a, b, c) :: triples r
  | _ => []
  end.

Fixpoint chunks {A} (h w : nat) (l : list A) : array2 A :=
  match h with
  | O => []
  | S h' => firstn w l :: chunks h' w (skipn w l)
  end.

(** [flat.reshape((h, w, 3))] *)
Definition reshape3 {A} (h w : nat) (flat : list A) : outcome (array2 (A * A * A)) :=
  if (length flat =? h * w * 3)%nat then Ret (chunks h w (triples flat))
  else Raise ValueError.

(** [cv2.flip(src, flipCode)]: 0 mirrors around the x-axis (top and
    bottom rows are exchanged), a positive code around the y-axis (left
    and right columns are exchanged), a negative code around both. *)
Definition cv_flip {A} (src : array2 A) (flipCode : Z) : array2 A :=
  if flipCode =? 0 then rev src
  else if 0 <? flipCode then map (@rev A) src
  else rev (map (@rev A) src).

(** A slice bound [i] of [a[i:j]] on a sequence of length [n]. *)
Definition slice_bound (n : nat) (i : Z) : nat :=
  Z.to_nat (Z.min (Z.of_nat n) (if i <? 0 then Z.max 0 (i + Z.of_nat n) else i)).

(** [l[i:j]] *)
Definition py_slice {A} (l : list A) (i j : Z) : list A :=
  let a := slice_bound (length l) i in
  let b := slice_bound (length l) j in
  firstn (b - a) (skipn a l).

(** [a[t:b, l:r]] *)
Definition slice2 {A} (a : array2 A) (t b l r : Z) : array2 A :=
  map (λ row, py_slice row l r) (py_slice a t b).

(** One axis of numpy broadcasting: an operand of the same length, or of
    length 1, repeated. *)
Definition broadcast {A} (n : nat) (l : list A) : option (list A) :=
  if (length l =? n)%nat then Some l
  else match l with
       | [x] => Some (repeat x n)
       | _ => None
       end.

Definition pix_op (f : Z → Z → Z) (p q : pix3) : pix3 :=
  let '(a, b, c) := p in
  let '(x, y, z) := q in
  (f a x mod 256, f b y mod 256, f c z mod 256).

Fixpoint all_some {A} (l : list (option A)) : option (list A) :=
  match l with
  | [] => Some []
  | None :: _ => None
  | Some x :: r => match all_some r with
                   | Some r' => Some (x :: r')
                   | None => None
                   end
  end.

(** [a op= b] on uint8 arrays: entry-wise, modulo 256, [b] broadcast to
    the shape of [a]. *)
Definition np_inplace (f : Z → Z → Z) (a b : array2 pix3) : outcome (array2 pix3) :=
  match broadcast (nrows a) b with
  | None => Raise ValueError
  | Some b' =>
      let rows := zip_with (λ ra rb, option_map (zip_with (pix_op f) ra)
                                                (broadcast (length ra) rb)) a b' in
      match all_some rows with
      | Some r => Ret r
      | None => Raise ValueError
      end
  end.

(** ** The camera object and its surroundings *)

(** [pygame.Rect], the part the driver reads. *)
Record Rect : Type := { rect_width : Z; rect_height : Z }.

(** [if rect:] holds for a rectangle of non-zero size. *)
Definition rect_truthy (r : Rect) : bool :=
  negb ((rect_width r =? 0) || (rect_height r =? 0)).

(** The display sink bound by [preview]. *)
Record Window : Type := { win_rect : Rect }.

(** [cv2.VideoCapture]: whether the device is open and what its next reads
    deliver ([None] is a read that fails). *)
Record VideoCapture : Type := {
  opened : bool;
  feed : list (option (array2 pix3))
}.

Record CvCamera : Type := {
  resolution : Z * Z;
  _preview_hflip : bool;
  _capture_hflip : bool;
  _rotation : Z;
  _iso : Z;
  _overlay_mask : option (array2 pix3);
  _overlay : option (array2 pix3);
  _window : option Window;
  _captures : gmap string (array2 pix3 * string);
  _cam : VideoCapture
}.

(** What the driver does to the outside, in order. *)
Inductive Event : Type :=
| EvRead (ok : bool)
| EvRelease
| EvRender (text : string) (alpha : Z)
| EvShow (image : option (array2 pix3))
| EvPump
| EvUpdate (r : Rect)
| EvSleep
| EvWrite (path : string).

Record World : Type := {
  self : CvCamera;
  ticks : nat;
  shown : nat;
  trace : list Event;
  files : gmap string (array2 pix3)
}.

(** The collaborators that are not part of the driver. *)
Record Env : Type := {
  (* BaseCamera.build_overlay, as the RGBA array of the PIL image *)
  build_overlay : Z * Z → string → Z → array2 pix4;
  (* cv2.resize(src, dsize, interpolation=cv2.INTER_AREA) on a valid call *)
  cv_resize : array2 pix3 → Z * Z → array2 pix3;
  (* sizing.new_size_keep_aspect_ratio(original, target, 'outer') *)
  new_size_keep_aspect_ratio : Z * Z → Z * Z → Z * Z;
  (* the string tables of pibooth.controls.camera.base *)
  LANGUAGES : gmap string (gmap string string);
  (* PiConfigParser.language *)
  language : string;
  (* the n-th answer of time.time() *)
  clock : nat → Q;
  (* what the n-th show_image of the window returns *)
  show_image_result : nat → option Rect;
  (* cv2.imwrite(filename, image): None when cv2 raises (it has no encoder
     for the extension of the name), else whether the file was written *)
  cv_imwrite : string → array2 pix3 → option bool
}.

Definition IMAGE_EFFECTS : list string :=
  ["none"; "blur"; "contour"; "detail"; "edge_enhance"; "edge_enhance_more";
   "emboss"; "find_edges"; "smooth"; "smooth_more"; "sharpen"].

(** *** Field updates *)

Definition set_preview_hflip (b : bool) (c : CvCamera) : CvCamera :=
  {| resolution := resolution c; _preview_hflip := b;
     _capture_hflip := _capture_hflip c; _rotation := _rotation c; _iso := _iso c;
     _overlay_mask := _overlay_mask c; _overlay := _overlay c;
     _window := _window c; _captures := _captures c; _cam := _cam c |}.


Definition set_overlay_mask (m : option (array2 pix3)) (c : CvCamera) : CvCamera :=
  {| resolution := resolution c; _preview_hflip := _preview_hflip c;
     _capture_hflip := _capture_hflip c; _rotation := _rotation c; _iso := _iso c;
     _overlay_mask := m; _overlay := _overlay c;
     _window := _window c; _captures := _captures c; _cam := _cam c |}.

Definition set_overlay (o : option (array2 pix3)) (c : CvCamera) : CvCamera :=
  {| resolution := resolution c; _preview_hflip := _preview_hflip c;
     _capture_hflip := _capture_hflip c; _rotation := _rotation c; _iso := _iso c;
     _overlay_mask := _overlay_mask c; _overlay := o;
     _window := _window c; _captures := _captures c; _cam := _cam c |}.

Definition set_window (w : option Window) (c : CvCamera) : CvCamera :=
  {| resolution := resolution c; _preview_hflip := _preview_hflip c;
     _capture_hflip := _capture_hflip c; _rotation := _rotation c; _iso := _iso c;
     _overlay_mask := _overlay_mask c; _overlay := _overlay c;
     _window := w; _captures := _captures c; _cam := _cam c |}.

Definition set_captures (m : gmap string (array2 pix3 * string)) (c : CvCamera) : CvCamera :=
  {| resolution := resolution c; _preview_hflip := _preview_hflip c;
     _capture_hflip := _capture_hflip c; _rotation := _rotation c; _iso := _iso c;
     _overlay_mask := _overlay_mask c; _overlay := _overlay c;
     _window := _window c; _captures := m; _cam := _cam c |}.

Definition set_cam (v : VideoCapture) (c : CvCamera) : CvCamera :=
  {| resolution := resolution c; _preview_hflip := _preview_hflip c;
     _capture_hflip := _capture_hflip c; _rotation := _rotation c; _iso := _iso c;
     _overlay_mask := _overlay_mask c; _overlay := _overlay c;
     _window := _window c; _captures := _captures c; _cam := v |}.

Definition on_self (f : CvCamera → CvCamera) (w : World) : World :=
  {| self := f (self w); ticks := ticks w; shown := shown w;
     trace := trace w; files := files w |}.

Definition emit (e : Event) (w : World) : World :=
  {| self := self w; ticks := ticks w; shown := shown w;
     trace := trace w ++ [e]; files := files w |}.

Definition tick (w : World) : World :=
  {| self := self w; ticks := S (ticks w); shown := shown w;
     trace := trace w; files := files w |}.

Definition count_show (w : World) : World :=
  {| self := self w; ticks := ticks w; shown := S (shown w);
     trace := trace w; files := files w |}.

Definition put_file (path : string) (image : array2 pix3) (w : World) : World :=
  {| self := self w; ticks := ticks w; shown := shown w;
     trace := trace w; files := <[path := image]> (files w) |}.

(** *** Calls: a state and exception monad over the world *)

Definition M (A : Type) : Type := World → outcome A * World.

Definition ret {A} (a : A) : M A := λ w, (Ret a, w).
Definition raise {A} (e : exn) : M A := λ w, (Raise e, w).
Definition bind {A B} (c : M A) (k : A → M B) : M B :=
  λ w, match c w with
       | (Ret a, w') => k a w'
       | (Raise e, w') => (Raise e, w')
       | (Running, w') => (Running, w')
       end.
Definition lift {A} (o : outcome A) : M A := λ w, (o, w).
Definition get_self : M CvCamera := λ w, (Ret (self w), w).
Definition update (f : World → World) : M unit := λ w, (Ret tt, f w).

Notation "'do' x <- c ; k" := (bind c (λ x, k))
  (at level 10, x name, c at level 100, k at level 200).
Notation "'run' c ; k" := (bind c (λ _, k))
  (at level 10, c at level 100, k at level 200).

Definition is_none {A} (o : option A) : bool :=
  match o with
  | None => true
  | Some _ => false
  end.

Section Driver.

Variable E : Env.

(** [time.time()] *)
Definition time_time : M Q :=
  λ w, (Ret (clock E (ticks w)), tick w).

(** Modelled from the spec: the PoolingTimer of [pibooth.utils], a
    duration-from-start tracker that is asked whether the duration has
    elapsed and how much time remains. *)
Record PoolingTimer : Type := { pt_timeout : Z; pt_time : Q }.

(** Modelled from the spec: [PoolingTimer(timeout)], which notes the time
    of its creation. *)
Definition PoolingTimer_start (timeout : Z) : M PoolingTimer :=
  do now <- time_time;
  ret {| pt_timeout := timeout; pt_time := now |}.

(** Modelled from the spec: [timer.is_timeout()], whether the duration
    has elapsed since the start. *)
Definition is_timeout (t : PoolingTimer) : M bool :=
  do now <- time_time;
  ret (Qle_bool (inject_Z (pt_timeout t)) (now - pt_time t)).

(** Modelled from the spec: [timer.remaining()], the duration less the
    time elapsed since the start. *)
Definition remaining (t : PoolingTimer) : M Q :=
  do now <- time_time;
  ret (inject_Z (pt_timeout t) - (now - pt_time t))%Q.

(** [self._cam.read()]: [(ret, image)], as an optional frame. *)
Definition cam_read : M (option (array2 pix3)) :=
  λ w,
    let v := _cam (self w) in
    match opened v, feed v with
    | true, r :: rest =>
        (Ret r, emit (EvRead (negb (is_none r)))
                     (on_self (set_cam {| opened := true; feed := rest |}) w))
    | _, _ => (Ret None, emit (EvRead false) w)
    end.

(** [self._cam.release()]: closes the device; on a closed one nothing is
    left to close. *)
Definition cam_release : M unit :=
  λ w,
    let v := _cam (self w) in
    (Ret tt, emit EvRelease (on_self (set_cam {| opened := false; feed := feed v |}) w)).

(** Modelled from the spec: [BaseCamera.get_rect], the viewport rectangle
    of the display sink bound to the camera. *)
Definition get_rect : M Rect :=
  do s <- get_self;
  match _window s with
  | Some win => ret (win_rect win)
  | None => raise AttributeError
  end.

(** Modelled from the spec: [BaseCamera._hide_overlay], which drops the
    cached overlay and mask. *)
Definition _hide_overlay : M unit :=
  update (on_self (λ s, set_overlay None (set_overlay_mask None s))).

(** Modelled from the spec: [sizing.new_size_by_croping], the centred
    rectangle (left, top, right, bottom) of exactly the target size; no
    rectangle when the current size is smaller than the target. *)
Definition new_size_by_croping (current target : Z * Z) : outcome (Z * Z * Z * Z) :=
  let '(cw, ch) := current in
  let '(tw, th) := target in
  if (tw <=? cw) && (th <=? ch) then
    let left := (cw - tw) / 2 in
    let top := (ch - th) / 2 in
    Ret (left, top, left + tw, top + th)
  else Raise ValueError.

(** [cv2.resize(image, size, interpolation=cv2.INTER_AREA)] *)
Definition resize (image : array2 pix3) (size : Z * Z) : outcome (array2 pix3) :=
  if is_empty image || (fst size <=? 0) || (snd size <=? 0) then Raise CvError
  else Ret (cv_resize E image size).

(** [self.window.show_image(image)] *)
Definition show_image (image : option (array2 pix3)) : M (option Rect) :=
  do s <- get_self;
  match _window s with
  | None => raise AttributeError
  | Some _ =>
      λ w, (Ret (show_image_result E (shown w)), count_show (emit (EvShow image) w))
  end.

(** [cv2.imwrite(filename, image)]: the error of cv2 when it refuses the
    call, as for a name whose extension has no encoder; else the file is
    written or not, and the call tells which. *)
Definition imwrite (filename : string) (image : array2 pix3) : M bool :=
  match cv_imwrite E filename image with
  | None => raise CvError
  | Some written =>
      λ w, (Ret written,
            emit (EvWrite filename) (if written then put_file filename image w else w))
  end.

(** [LANGUAGES.get(PiConfigParser.language, LANGUAGES['en']).get('smile_message')] *)
Definition smile_message : outcome py_value :=
  match LANGUAGES E !! "en" with
  | None => Raise KeyError
  | Some en =>
      match default en (LANGUAGES E !! language E) !! "smile_message" with
      | Some s => Ret (PyStr s)
      | None => Ret PyNone
      end
  end.

(** *** The methods of [CvCamera] *)

Definition _show_overlay (text : py_value) (alpha : Z) : M unit :=
  do s <- get_self;
  match _window s with
  | None => ret tt
  | Some _ =>
      do rect <- get_rect;
      run update (emit (EvRender (py_str text) alpha));
      let overlay := build_overlay E (rect_width rect, rect_height rect) (py_str text) alpha in
      do overlay_mask <- lift (cvtColor RGBA2GRAY overlay);
      let overlay_mask := threshold_binary_inv 10 1 overlay_mask in
      let '(height, width) := shape overlay_mask in
      do mask3 <- lift (reshape3 height width (np_repeat overlay_mask 3));
      run update (on_self (set_overlay_mask (Some mask3)));
      do rgb <- lift (cvtColor RGBA2RGB overlay);
      update (on_self (set_overlay (Some rgb)))
  end.

Definition _fit_to_resolution (res : Z * Z) (image : array2 pix3) : outcome (array2 pix3) :=
  let '(height, width) := shape image in
  let size := new_size_keep_aspect_ratio E (Z.of_nat width, Z.of_nat height) res in
  match resize image size with
  | Ret image =>
      let '(height, width) := shape image in
      match new_size_by_croping (Z.of_nat width, Z.of_nat height) res with
      | Ret (c0, c1, c2, c3) => Ret (slice2 image c1 c3 c0 c2)
      | Raise e => Raise e
      | Running => Running
      end
  | Raise e => Raise e
  | Running => Running
  end.

Definition _get_preview_image : M (option (array2 pix3)) :=
  do rect <- get_rect;
  do r <- cam_read;
  match r with
  | None => ret None
  | Some image =>
      do image <- lift (cvtColor BGR2RGB image);
      do s <- get_self;
      do image <- lift (_fit_to_resolution (resolution s) image);
      let image := if _preview_hflip s then cv_flip image 1 else image in
      let '(height, width) := shape image in
      let size := new_size_keep_aspect_ratio E (Z.of_nat width, Z.of_nat height)
                    (rect_width rect, rect_height rect) in
      do image <- lift (resize image size);
      do image <-
        match _overlay s with
        | None => ret image
        | Some overlay =>
            match _overlay_mask s with
            | None => raise TypeError
            | Some mask =>
                do image <- lift (np_inplace Z.mul image mask);
                lift (np_inplace Z.add image overlay)
            end
        end;
      ret (Some image)
  end.

Definition _post_process_capture (capture_path : string) : M (array2 pix3) :=
  do s <- get_self;
  match _captures s !! capture_path with
  | None => raise KeyError
  | Some (image, effect) =>
      do image <- lift (cvtColor BGR2RGB image);
      do image <- lift (_fit_to_resolution (resolution s) image);
      let image := if _capture_hflip s then cv_flip image 0 else image in
      let image := if negb (String.eqb effect "none") then image else image in
      do _written <- imwrite capture_path image;
      ret image
  end.

Definition preview (window : Window) (flip : bool) : M unit :=
  run update (on_self (set_window (Some window)));
  run update (on_self (set_preview_hflip flip));
  do image <- _get_preview_image;
  do _r <- show_image image;
  ret tt.

(** One turn of the display: show a frame, pump the events, flush the
    region the window reports. *)
Definition show_frame : M unit :=
  do s <- get_self;
  match _window s with
  | None => raise AttributeError
  | Some _ =>
      do image <- _get_preview_image;
      do updated_rect <- show_image image;
      run update (emit EvPump);
      match updated_rect with
      | Some r => if rect_truthy r then update (emit (EvUpdate r)) else ret tt
      | None => ret tt
      end
  end.

(** The [while not timer.is_timeout()] loop of [preview_countdown];
    [timeout] is the number last rendered. *)
Fixpoint countdown_loop (fuel : nat) (timer : PoolingTimer) (timeout alpha : Z) : M unit :=
  match fuel with
  | O => lift Running
  | S fuel' =>
      do stop <- is_timeout timer;
      if stop then ret tt
      else
        do r <- remaining timer;
        let remaining := py_int (r + 1) in
        do s <- get_self;
        do timeout <-
          (if is_none (_overlay s) || negb (remaining =? timeout) then
             run _show_overlay (PyStr (py_str (PyInt remaining))) alpha;
             ret remaining
           else ret timeout);
        run show_frame;
        countdown_loop fuel' timer timeout alpha
  end.

(** The last two statements of both timed phases. *)
Definition show_smile (alpha : Z) : M unit :=
  do text <- lift smile_message;
  run _show_overlay text alpha;
  do s <- get_self;
  match _window s with
  | None => raise AttributeError
  | Some _ =>
      do image <- _get_preview_image;
      do _r <- show_image image;
      ret tt
  end.

Definition preview_countdown (fuel : nat) (timeout : Q) (alpha : Z) : M unit :=
  let timeout := py_int timeout in
  if timeout <? 1 then raise ValueError
  else
    do timer <- PoolingTimer_start timeout;
    run countdown_loop fuel timer timeout alpha;
    show_smile alpha.

Fixpoint wait_loop (fuel : nat) (timer : PoolingTimer) : M unit :=
  match fuel with
  | O => lift Running
  | S fuel' =>
      do stop <- is_timeout timer;
      if stop then ret tt
      else
        run show_frame;
        wait_loop fuel' timer
  end.

Definition preview_wait (fuel : nat) (timeout : Q) (alpha : Z) : M unit :=
  let timeout := py_int timeout in
  if timeout <? 1 then raise ValueError
  else
    do timer <- PoolingTimer_start timeout;
    run wait_loop fuel timer;
    show_smile alpha.

Definition stop_preview : M unit :=
  run _hide_overlay;
  update (on_self (set_window None)).

Definition capture (filename : string) (effect : py_value) : M unit :=
  let effect := lower (py_str effect) in
  if negb (py_in effect IMAGE_EFFECTS) then raise ValueError
  else
    do r <- cam_read;
    match r with
    | None => raise IOError
    | Some image =>
        run update (on_self (λ s, set_captures (<[filename := (image, effect)]> (_captures s)) s));
        run update (emit EvSleep);
        _hide_overlay
    end.

(** A [cv2.VideoCapture] object is always true in a condition. *)
Definition cam_truthy (v : VideoCapture) : bool := true.

Definition quit : M unit :=
  do s <- get_self;
  if cam_truthy (_cam s) then cam_release else ret tt.

End Driver.

(** [cv_camera_connected()], given whether cv2 could be imported and the
    handle that [cv2.VideoCapture(0)] gives: the answer, and the handle
    as the probe leaves it (none when cv2 is missing). *)
Definition cv_camera_connected (cv2 : bool) (camera : VideoCapture)
  : bool * option VideoCapture :=
  if negb cv2 then (false, None)
  else if opened camera
       then (true, Some {| opened := false; feed := feed camera |})
       else (false, Some camera).

(** [CvCamera.__init__], on the handle that [cv2.VideoCapture(0)] gave;
    the fields of [BaseCamera] start empty. *)
Definition CvCamera_init (device : VideoCapture) (iso : Z) (res : Z * Z)
    (rotation : Z) (flip : bool) : CvCamera :=
  {| resolution := res; _preview_hflip := false; _capture_hflip := flip;
     _rotation := rotation; _iso := iso; _overlay_mask := None;
     _overlay := None; _window := None; _captures := ∅; _cam := device |}.

Definition new_world (s : CvCamera) : World :=
  {| self := s; ticks := O; shown := O; trace := []; files := ∅ |}.

(** ** A concrete set of collaborators, to run the driver *)

(** A text layer of the requested size: transparent black, with white
    ink of the given alpha in the first column when there is a text. *)
Definition sample_overlay (size : Z * Z) (text : string) (alpha : Z) : array2 pix4 :=
  map (λ _ : nat,
         map (λ x : nat,
                if negb (String.eqb text EmptyString) && (x =? 0)%nat
                then (255, 255, 255, alpha) else (0, 0, 0, 0))
             (seq 0 (Z.to_nat (fst size))))
      (seq 0 (Z.to_nat (snd size))).

(** Nearest-neighbour resampling to [size] = (width, height). *)
Definition sample_resize (image : array2 pix3) (size : Z * Z) : array2 pix3 :=
  let h := Z.to_nat (snd size) in
  let w := Z.to_nat (fst size) in
  map (λ y : nat,
         let row := nth (y * nrows image / h) image [] in
         map (λ x : nat, nth (x * ncols image / w) row (0, 0, 0)) (seq 0 w))
      (seq 0 h).

(** The source scaled until it covers the target, one side fitted. *)
Definition sample_fit_outer (original target : Z * Z) : Z * Z :=
  let '(ow, oh) := original in
  let '(tw, th) := target in
  if tw * oh <? th * ow then ((th * ow + oh - 1) / oh, th)
  else (tw, (tw * oh + ow - 1) / ow).

(** The text after the last dot of a name, if it has a dot. *)
Fixpoint extension_from (s : string) (ext : option string) : option string :=
  match s with
  | EmptyString => ext
  | String c r =>
      if Ascii.eqb c "." then extension_from r (Some EmptyString)
      else extension_from r (option_map (λ e, String.append e (String c EmptyString)) ext)
  end.

(** An imwrite with encoders for a few extensions, which writes every
    file it has an encoder for. *)
Definition sample_imwrite (filename : string) (image : array2 pix3) : option bool :=
  match extension_from filename None with
  | Some ext => if py_in (lower ext) ["jpg"; "jpeg"; "png"; "bmp"] then Some true else None
  | None => None
  end.

Definition sample_languages : gmap string (gmap string string) :=
  <["en" := <["smile_message" := "Smile !"]> ∅]>
    (<["fr" := <["smile_message" := "Souriez !"]> ∅]> ∅).

Definition sample_env (time : nat → Q) : Env :=
  {| build_overlay := sample_overlay;
     cv_resize := sample_resize;
     new_size_keep_aspect_ratio := sample_fit_outer;
     LANGUAGES := sample_languages;
     language := "fr";
     clock := time;
     show_image_result := λ n, if Nat.even n then Some {| rect_width := 4; rect_height := 2 |}
                                else None;
     cv_imwrite := sample_imwrite |}.

(** A clock that advances by a quarter of a second at every reading. *)
Definition quarter_clock (n : nat) : Q := (Z.of_nat n # 4)%Q.

Definition sample_frame : array2 pix3 :=
  [[(10, 20, 30); (11, 21, 31); (12, 22, 32); (13, 23, 33)];
   [(40, 50, 60); (41, 51, 61); (42, 52, 62); (43, 53, 63)]].

Definition sample_device (n : nat) : VideoCapture :=
  {| opened := true; feed := repeat (Some sample_frame) n |}.

Definition sample_window : Window :=
  {| win_rect := {| rect_width := 4; rect_height := 2 |} |}.

(** A camera of resolution 4x2 with a preview bound to a 4x2 window. *)
Definition sample_world (n : nat) : World :=
  new_world (set_window (Some sample_window)
               (CvCamera_init (sample_device n) 200 (4, 2) 0 false)).

(** ** The overlay mask *)

(** The mask of an overlay: 0 in the three channels where the grey level
    of the overlay is above 10, 1 elsewhere. *)
Definition mask_of_overlay (overlay : array2 pix4) : array2 pix3 :=
  map (map (λ p, let v := if 10 <? RGBA2GRAY p then 0 else 1 in (v, v, v))) overlay.

Definition rendered (E : Env) (win : Window) (text : py_value) (alpha : Z) : array2 pix4 :=
  build_overlay E (rect_width (win_rect win), rect_height (win_rect win)) (py_str text) alpha.

(** The claim of the specification on the polarity of the mask: 1 where
    the opacity of the overlay is above 10, 0 elsewhere. *)
Definition marks_opaque_pixels (overlay : array2 pix4) (mask : array2 pix3) : Prop :=
  ∀ y x r g b a,
    pixel_at overlay y x = Some (r, g, b, a) →
    pixel_at mask y x = Some (if 10 <? a then (1, 1, 1) else (0, 0, 0)).

(** ** Contracts of the collaborators *)

(** Modelled from the spec: [sizing.new_size_keep_aspect_ratio] with
    'outer' covers the target box, the size it returns is at least the
    target in both dimensions. *)
Definition covers_target (E : Env) : Prop :=
  ∀ ow oh tw th, 0 < ow → 0 < oh → 0 < tw → 0 < th →
    tw ≤ fst (new_size_keep_aspect_ratio E (ow, oh) (tw, th)) ∧
    th ≤ snd (new_size_keep_aspect_ratio E (ow, oh) (tw, th)).

(** [cv2.resize] returns an image of the size asked for. *)
Definition resizes_to_size (E : Env) : Prop :=
  ∀ image w h, is_empty image = false → 0 < w → 0 < h →
    has_shape (Z.to_nat h) (Z.to_nat w) (cv_resize E image (w, h)).

(** Steps 1 and 2 of both pipelines: canonical colour order, then the
    fit to the resolution of the device. *)
Definition normalized (E : Env) (res : Z * Z) (frame : array2 pix3) : outcome (array2 pix3) :=
  match cvtColor BGR2RGB frame with
  | Ret image => _fit_to_resolution E res image
  | Raise e => Raise e
  | Running => Running
  end.

(** ** Calls in sequence *)

Inductive call : Type :=
| Capture (filename : string) (effect : py_value)
| PostProcess (capture_path : string).

Definition do_call (E : Env) (c : call) : M unit :=
  match c with
  | Capture filename effect => capture filename effect
  | PostProcess capture_path =>
      do _image <- _post_process_capture E capture_path;
      ret tt
  end.

(** The calls of a caller that goes on after an exception. *)
Fixpoint run_calls (E : Env) (cs : list call) (w : World) : World :=
  match cs with
  | [] => w
  | c :: rest => run_calls E rest (snd (do_call E c w))
  end.

(** Steps 4 and 5 of the preview: the resize to the viewport and the
    overlay, as [_get_preview_image] does them after the flip. *)
Definition preview_finish (E : Env) (s : CvCamera) (rect : Rect) (image : array2 pix3)
  : outcome (option (array2 pix3)) :=
  let '(height, width) := shape image in
  let size := new_size_keep_aspect_ratio E (Z.of_nat width, Z.of_nat height)
                (rect_width rect, rect_height rect) in
  match resize E image size with
  | Ret image =>
      match _overlay s with
      | None => Ret (Some image)
      | Some overlay =>
          match _overlay_mask s with
          | None => Raise TypeError
          | Some mask =>
              match np_inplace Z.mul image mask with
              | Ret image =>
                  match np_inplace Z.add image overlay with
                  | Ret image => Ret (Some image)
                  | Raise e => Raise e
                  | Running => Running
                  end
              | Raise e => Raise e
              | Running => Running
              end
          end
      end
  | Raise e => Raise e
  | Running => Running
  end.


(** ** The countdown: what is assumed of the surroundings *)

(** Modelled from the spec: [BaseCamera.build_overlay] returns a layer of
    the size of the viewport it is given. *)
Definition renders_to_size (E : Env) : Prop :=
  ∀ w h text alpha, 0 < w → 0 < h →
    has_shape (Z.to_nat h) (Z.to_nat w) (build_overlay E (w, h) text alpha).

Definition well_behaved (E : Env) : Prop :=
  covers_target E ∧ resizes_to_size E ∧ renders_to_size E ∧
  is_Some (LANGUAGES E !! "en").

(** A frame the device delivers is a non-empty image. *)
Definition frame_ok (o : option (array2 pix3)) : Prop :=
  match o with
  | None => True
  | Some f => ∃ H W, (0 < H)%nat ∧ (0 < W)%nat ∧ has_shape H W f
  end.

(** A cached overlay comes with its mask, both of the size of the viewport. *)
Definition overlay_fits (win : Window) (s : CvCamera) : Prop :=
  match _overlay s with
  | None => True
  | Some overlay =>
      has_shape (Z.to_nat (rect_height (win_rect win))) (Z.to_nat (rect_width (win_rect win)))
        overlay ∧
      ∃ mask, _overlay_mask s = Some mask ∧
        has_shape (Z.to_nat (rect_height (win_rect win))) (Z.to_nat (rect_width (win_rect win)))
          mask
  end.

(** A preview is running on [win]: the viewport has the aspect of the
    resolution of the device, so that a frame fitted to it has its size. *)
Record ready (E : Env) (win : Window) (w : World) : Prop := {
  ready_window : _window (self w) = Some win;
  ready_rect : 0 < rect_width (win_rect win) ∧ 0 < rect_height (win_rect win);
  ready_resolution : 0 < fst (resolution (self w)) ∧ 0 < snd (resolution (self w));
  ready_viewport :
    new_size_keep_aspect_ratio E (resolution (self w))
      (rect_width (win_rect win), rect_height (win_rect win))
    = (rect_width (win_rect win), rect_height (win_rect win));
  ready_frames : Forall frame_ok (feed (_cam (self w)));
  ready_overlay : overlay_fits win (self w)
}.

(** The timer started at clock reading [t0] reports the timeout for the
    first time at the loop test of turn [n] (turn i tests at reading
    t0 + 2 i + 1 and asks for the remaining time at t0 + 2 i + 2). *)
Definition times_out_at (E : Env) (t0 : nat) (timeout : Z) (n : nat) : Prop :=
  Qle_bool (inject_Z timeout) (clock E (t0 + 2 * n + 1) - clock E t0) = true ∧
  ∀ m, (m < n)%nat →
    Qle_bool (inject_Z timeout) (clock E (t0 + 2 * m + 1) - clock E t0) = false.

(** The number computed at turn [i]: [int(timer.remaining() + 1)]. *)
Definition shown_second (E : Env) (t0 : nat) (timeout : Z) (i : nat) : Z :=
  py_int (inject_Z timeout - (clock E (t0 + 2 * i + 2) - clock E t0) + 1).

(** Whether turn [i] renders the overlay again: its number differs from
    the one of the turn before (from the duration, at the first turn), or
    there is no overlay yet ([fresh]) at the first turn. *)
Definition rerenders (E : Env) (t0 : nat) (timeout : Z) (fresh : bool) (i : nat) : bool :=
  match i with
  | O => fresh || negb (shown_second E t0 timeout O =? timeout)
  | S j => negb (shown_second E t0 timeout (S j) =? shown_second E t0 timeout j)
  end.

Definition turn_renders (E : Env) (t0 : nat) (timeout : Z) (fresh : bool) (i : nat)
  : list string :=
  if rerenders E t0 timeout fresh i then [str_of_Z (shown_second E t0 timeout i)] else [].

(** The texts rendered before each frame shown, one entry per frame. *)
Fixpoint renders_before (pending : list string) (tr : list Event) : list (list string) :=
  match tr with
  | [] => []
  | EvRender text _ :: rest => renders_before (pending ++ [text]) rest
  | EvShow _ :: rest => pending :: renders_before [] rest
  | _ :: rest => renders_before pending rest
  end.

Definition renders_per_turn (tr : list Event) : list (list string) :=
  renders_before [] tr.

(** The number of the specification at turn [i]: the ceiling of the
    remaining time. *)
Definition ceil_second (E : Env) (t0 : nat) (timeout : Z) (i : nat) : Z :=
  Qceiling (inject_Z timeout - (clock E (t0 + 2 * i + 2) - clock E t0)).

(** A clock that stands still between the test and the reading of a
    turn: both readings of turn [k] are [k / 2] seconds after the start. *)
Definition half_clock (n : nat) : Q := (Z.of_nat ((n - 1) / 2) # 2)%Q.

(** ** Further properties: what they speak of *)

(** Every pending capture carries one of the enumerated effects. *)
Definition effects_valid (s : CvCamera) : Prop :=
  ∀ key image effect,
    _captures s !! key = Some (image, effect) → In effect IMAGE_EFFECTS.

(** The channels of an 8-bit pixel. *)
Definition uint8 (v : Z) : bool := (0 <=? v) && (v <? 256).

Definition uint8_pix3 (p : pix3) : bool :=
  let '(a, b, c) := p in uint8 a && uint8 b && uint8 c.

Definition uint8_pix4 (p : pix4) : bool :=
  let '(r, g, b, a) := p in uint8 r && uint8 g && uint8 b && uint8 a.

Definition all_pixels {A} (f : A → bool) (a : array2 A) : bool :=
  forallb (forallb f) a.

(** The timer of [preview_wait], started at clock reading [t0], reports
    the timeout for the first time at the test of turn [n] (turn i tests
    at reading t0 + i + 1). *)
Definition wait_times_out_at (E : Env) (t0 : nat) (timeout : Z) (n : nat) : Prop :=
  Qle_bool (inject_Z timeout) (clock E (t0 + n + 1) - clock E t0) = true ∧
  ∀ m, (m < n)%nat →
    Qle_bool (inject_Z timeout) (clock E (t0 + m + 1) - clock E t0) = false.

(** A clock that does not run backwards. *)
Definition clock_monotone (E : Env) : Prop :=
  ∀ i j, (i ≤ j)%nat → (clock E i <= clock E j)%Q.

(** The numbers that the first [n] turns of the countdown render. *)
Definition rendered_numbers (E : Env) (t0 : nat) (timeout : Z) (fresh : bool) (n : nat)
  : list Z :=
  flat_map (λ i, if rerenders E t0 timeout fresh i
                 then [shown_second E t0 timeout i] else [])
           (seq 0 n).

(** * Properties *)

(** ** Arrays: shapes and entries *)

Lemma map_fmap {A B} (f : A → B) (l : list A) : map f l = f <$> l.
Proof. reflexivity. Qed.

Section Arrays.

Context {A B : Type}.

Lemma has_shape_map (f : A → B) h w (a : array2 A) :
  has_shape h w a → has_shape h w (map (map f) a).
Proof.
  intros [Hh Hw]. split.
  - by rewrite length_map.
  - apply Forall_map. eapply Forall_impl; [exact Hw|].
    intros r Hr. simpl. by rewrite length_map.
Qed.

Lemma has_shape_shape h w (a : array2 A) :
  (0 < h)%nat → has_shape h w a → shape a = (h, w).
Proof.
  intros Hpos [Hh Hw]. unfold shape, nrows, ncols.
  destruct a as [|r a]; simpl in *; [lia|].
  inversion Hw; subst. reflexivity.
Qed.

Lemma has_shape_not_empty h w (a : array2 A) :
  (0 < h)%nat → (0 < w)%nat → has_shape h w a → is_empty a = false.
Proof.
  intros Hh Hw Ha. pose proof (has_shape_shape h w a Hh Ha) as Hs.
  unfold shape in Hs. injection Hs as Hr Hc. unfold is_empty.
  rewrite Hr, Hc. destruct h, w; simpl; try lia; reflexivity.
Qed.

Lemma length_concat_shape h w (a : array2 A) :
  has_shape h w a → length (concat a) = (h * w)%nat.
Proof.
  intros [Hh Hw]. subst h. induction Hw as [|r a Hr Hw IH]; simpl; [done|].
  rewrite length_app, IH, Hr. reflexivity.
Qed.

Lemma chunks_concat h w (a : array2 A) :
  has_shape h w a → chunks h w (concat a) = a.
Proof.
  intros [Hh Hw]. subst h. induction Hw as [|r a Hr Hw IH]; simpl; [done|].
  subst w. rewrite firstn_app, Nat.sub_diag, firstn_all. simpl.
  rewrite app_nil_r. f_equal.
  rewrite skipn_app, Nat.sub_diag, skipn_all. simpl. exact IH.
Qed.

Lemma triples_repeat (l : list A) :
  triples (flat_map (λ v, repeat v 3) l) = map (λ v, (v, v, v)) l.
Proof.
  induction l as [|v l IH]; [done|].
  change (flat_map (λ v, repeat v 3) (v :: l))
    with (v :: v :: v :: flat_map (λ v, repeat v 3) l).
  cbn [triples map]. by rewrite IH.
Qed.

Lemma length_np_repeat h w (a : array2 A) :
  has_shape h w a → length (np_repeat a 3) = (h * w * 3)%nat.
Proof.
  intros Ha. unfold np_repeat.
  rewrite <- (length_concat_shape h w a Ha).
  induction (concat a) as [|v l IH]; [done|].
  change (flat_map (λ v, repeat v 3) (v :: l))
    with (v :: v :: v :: flat_map (λ v, repeat v 3) l).
  cbn [length]. rewrite IH. lia.
Qed.

Lemma pixel_at_map (f : A → B) (a : array2 A) y x :
  pixel_at (map (map f) a) y x = f <$> pixel_at a y x.
Proof.
  unfold pixel_at. rewrite !map_fmap, list_lookup_fmap.
  destruct (a !! y) as [r|]; simpl; [|done].
  by rewrite list_lookup_fmap.
Qed.

End Arrays.

(** [np.repeat(m, 3).reshape((h, w, 3))] copies every entry of [m] into
    the three channels of its pixel. *)
Lemma reshape3_np_repeat {A} h w (m : array2 A) :
  has_shape h w m →
  reshape3 h w (np_repeat m 3) = Ret (map (map (λ v, (v, v, v))) m).
Proof.
  intros Hm. unfold reshape3.
  rewrite (length_np_repeat h w m Hm), Nat.eqb_refl.
  unfold np_repeat. rewrite triples_repeat.
  rewrite concat_map.
  rewrite chunks_concat; [done|]. by apply has_shape_map.
Qed.

Ltac msimpl :=
  cbv beta iota delta [bind ret lift update get_self raise].

Lemma get_rect_eq w win :
  _window (self w) = Some win → get_rect w = (Ret (win_rect win), w).
Proof. intros H. unfold get_rect. msimpl. by rewrite H. Qed.

Lemma show_overlay_eq E w win text alpha h wd :
  _window (self w) = Some win →
  (0 < h)%nat → (0 < wd)%nat →
  has_shape h wd (rendered E win text alpha) →
  _show_overlay E text alpha w =
    (Ret tt,
     on_self (set_overlay (Some (map (map RGBA2RGB) (rendered E win text alpha))))
       (on_self (set_overlay_mask (Some (mask_of_overlay (rendered E win text alpha))))
          (emit (EvRender (py_str text) alpha) w))).
Proof.
  intros Hwin Hh Hwd Hshape.
  pose proof (has_shape_not_empty h wd _ Hh Hwd Hshape) as Hne.
  unfold _show_overlay. msimpl. rewrite Hwin. msimpl.
  rewrite (get_rect_eq w win Hwin). msimpl.
  fold (rendered E win text alpha).
  unfold cvtColor. rewrite Hne.
  assert (Hm : has_shape h wd
                 (threshold_binary_inv 10 1 (map (map RGBA2GRAY) (rendered E win text alpha)))).
  { unfold threshold_binary_inv. by do 2 apply has_shape_map. }
  rewrite (has_shape_shape h wd _ Hh Hm).
  rewrite (reshape3_np_repeat h wd _ Hm).
  do 3 f_equal. unfold on_self; simpl. do 3 f_equal.
  unfold mask_of_overlay, threshold_binary_inv.
  rewrite !map_map. apply map_ext. intros r. rewrite !map_map. reflexivity.
Qed.


(** ** C1: the overlay mask is binary, on three channels, and inverted *)

(** C1 (amended). For every text (the empty one too) whose rendering is a
    non-empty layer, [_show_overlay] stores a mask of the size of the
    layer whose pixels carry one value on their three channels, 0 or 1:
    0 where the grey level of the layer is above 10 (the overlay is
    present), 1 on all other pixels. *)
Theorem show_overlay_mask_binary E w win text alpha h wd :
  _window (self w) = Some win →
  (0 < h)%nat → (0 < wd)%nat →
  has_shape h wd (rendered E win text alpha) →
  ∃ w' mask,
    _show_overlay E text alpha w = (Ret tt, w') ∧
    _overlay_mask (self w') = Some mask ∧
    has_shape h wd mask ∧
    ∀ y x p,
      pixel_at (rendered E win text alpha) y x = Some p →
      ∃ v, pixel_at mask y x = Some (v, v, v) ∧ (v = 0 ∨ v = 1) ∧
           (v = 0 ↔ 10 < RGBA2GRAY p).
Proof.
  intros Hwin Hh Hwd Hshape.
  eexists _, (mask_of_overlay (rendered E win text alpha)).
  split; [exact (show_overlay_eq E w win text alpha h wd Hwin Hh Hwd Hshape)|].
  split; [reflexivity|].
  split; [by apply has_shape_map|].
  intros y x p Hp. unfold mask_of_overlay. rewrite pixel_at_map, Hp. simpl.
  destruct (Z.ltb_spec 10 (RGBA2GRAY p)) as [Hgt|Hle].
  - exists 0. split; [done|]. split; [by left|]. done.
  - exists 1. split; [done|]. split; [by right|]. split; [done|lia].
Qed.

Lemma sample_overlay_shape size text alpha :
  has_shape (Z.to_nat (snd size)) (Z.to_nat (fst size)) (sample_overlay size text alpha).
Proof.
  unfold sample_overlay. split.
  - by rewrite length_map, length_seq.
  - apply Forall_map, Forall_forall. intros y _. simpl.
    by rewrite length_map, length_seq.
Qed.

Lemma show_overlay_mask_binary_witness :
  ∃ w' mask,
    _show_overlay (sample_env quarter_clock) (PyStr EmptyString) 80 (sample_world 1) = (Ret tt, w') ∧
    _overlay_mask (self w') = Some mask ∧
    has_shape 2 4 mask ∧
    ∀ y x p,
      pixel_at (rendered (sample_env quarter_clock) sample_window (PyStr EmptyString) 80) y x = Some p →
      ∃ v, pixel_at mask y x = Some (v, v, v) ∧ (v = 0 ∨ v = 1) ∧
           (v = 0 ↔ 10 < RGBA2GRAY p).
Proof.
  apply (show_overlay_mask_binary (sample_env quarter_clock) (sample_world 1)
           sample_window (PyStr EmptyString) 80 2 4).
  - reflexivity.
  - lia.
  - lia.
  - apply (sample_overlay_shape (4, 2) EmptyString 80).
Defined.

(** C1, as the specification has it, fails on a white glyph of alpha 80:
    its opacity (and its grey level) is above 10 and its mask value is 0. *)
Lemma mask_marks_opaque_counterexample :
  ¬ (∀ E w win text alpha w',
       _window (self w) = Some win →
       _show_overlay E text alpha w = (Ret tt, w') →
       ∃ mask, _overlay_mask (self w') = Some mask ∧
               marks_opaque_pixels (rendered E win text alpha) mask).
Proof.
  intros H.
  destruct (H (sample_env quarter_clock) (sample_world 1) sample_window (PyStr "3") 80
              (snd (_show_overlay (sample_env quarter_clock) (PyStr "3") 80 (sample_world 1)))
              eq_refl eq_refl) as (mask & Hmask & Hmarks).
  vm_compute in Hmask. injection Hmask as <-.
  specialize (Hmarks 0%nat 0%nat 255 255 255 80 eq_refl).
  vm_compute in Hmarks. discriminate Hmarks.
Qed.

(** ** C7: the fit to the resolution of the device *)

Lemma slice_bound_in_range n i :
  0 ≤ i ≤ Z.of_nat n → slice_bound n i = Z.to_nat i.
Proof.
  intros Hi. unfold slice_bound.
  destruct (Z.ltb_spec i 0); [lia|]. f_equal. lia.
Qed.

Lemma py_slice_length {A} (l : list A) i j :
  0 ≤ i → i ≤ j → j ≤ Z.of_nat (length l) →
  length (py_slice l i j) = Z.to_nat (j - i).
Proof.
  intros Hi Hij Hj. unfold py_slice.
  rewrite !slice_bound_in_range by lia.
  rewrite length_firstn, length_skipn. lia.
Qed.

Lemma py_slice_Forall {A} (P : A → Prop) (l : list A) i j :
  Forall P l → Forall P (py_slice l i j).
Proof.
  intros Hl. unfold py_slice.
  apply Forall_take. by apply Forall_drop.
Qed.

Lemma slice2_shape {A} h w (a : array2 A) t b l r :
  has_shape h w a →
  0 ≤ t → t ≤ b → b ≤ Z.of_nat h →
  0 ≤ l → l ≤ r → r ≤ Z.of_nat w →
  has_shape (Z.to_nat (b - t)) (Z.to_nat (r - l)) (slice2 a t b l r).
Proof.
  intros [Hh Hw] Ht Htb Hb Hl Hlr Hr. unfold slice2. split.
  - rewrite length_map. apply py_slice_length; lia.
  - apply Forall_map. apply py_slice_Forall.
    eapply Forall_impl; [exact Hw|]. intros row Hrow. simpl.
    apply py_slice_length; rewrite ?Hrow; lia.
Qed.

Lemma fit_to_resolution_shape E Rw Rh H W image :
  covers_target E → resizes_to_size E →
  (0 < H)%nat → (0 < W)%nat → has_shape H W image →
  0 < Rw → 0 < Rh →
  ∃ out, _fit_to_resolution E (Rw, Rh) image = Ret out ∧
         has_shape (Z.to_nat Rh) (Z.to_nat Rw) out.
Proof.
  intros Hfit Hres HH HW Himg HRw HRh.
  unfold _fit_to_resolution.
  rewrite (has_shape_shape H W image HH Himg).
  destruct (Hfit (Z.of_nat W) (Z.of_nat H) Rw Rh) as [Hsw Hsh]; try lia.
  destruct (new_size_keep_aspect_ratio E (Z.of_nat W, Z.of_nat H) (Rw, Rh))
    as [sw sh] eqn:Hsize.
  rewrite ?Hsize in Hsw, Hsh. simpl in Hsw, Hsh.
  pose proof (has_shape_not_empty H W image HH HW Himg) as Hne.
  unfold resize. rewrite Hne. cbn [orb fst snd].
  destruct (Z.leb_spec sw 0); [exfalso; lia|].
  destruct (Z.leb_spec sh 0); [exfalso; lia|]. cbn [orb].
  pose proof (Hres image sw sh Hne ltac:(lia) ltac:(lia)) as Hshape.
  rewrite (has_shape_shape (Z.to_nat sh) (Z.to_nat sw) _ ltac:(lia) Hshape).
  unfold new_size_by_croping. rewrite !Z2Nat.id by lia.
  destruct (Z.leb_spec Rw sw); [|exfalso; lia].
  destruct (Z.leb_spec Rh sh); [|exfalso; lia]. cbn [andb].
  eexists. split; [reflexivity|].
  assert (Hl : 0 ≤ (sw - Rw) / 2) by (apply Z.div_pos; lia).
  assert (Ht : 0 ≤ (sh - Rh) / 2) by (apply Z.div_pos; lia).
  assert (Hl' : 2 * ((sw - Rw) / 2) ≤ sw - Rw) by (apply Z.mul_div_le; lia).
  assert (Ht' : 2 * ((sh - Rh) / 2) ≤ sh - Rh) by (apply Z.mul_div_le; lia).
  set (t := (sh - Rh) / 2) in *. set (l := (sw - Rw) / 2) in *.
  replace (Z.to_nat Rh) with (Z.to_nat (t + Rh - t)) by (f_equal; lia).
  replace (Z.to_nat Rw) with (Z.to_nat (l + Rw - l)) by (f_equal; lia).
  eapply slice2_shape; [exact Hshape|..]; lia.
Qed.

Lemma normalized_shape E Rw Rh H W frame :
  covers_target E → resizes_to_size E →
  (0 < H)%nat → (0 < W)%nat → has_shape H W frame →
  0 < Rw → 0 < Rh →
  ∃ out, normalized E (Rw, Rh) frame = Ret out ∧
         has_shape (Z.to_nat Rh) (Z.to_nat Rw) out.
Proof.
  intros Hfit Hres HH HW Himg HRw HRh.
  unfold normalized, cvtColor.
  rewrite (has_shape_not_empty H W frame HH HW Himg).
  apply (fit_to_resolution_shape E Rw Rh H W); auto using has_shape_map.
Qed.

(** C7. For every raw frame of positive width and height and every
    positive resolution (Rw, Rh) of the device, [_fit_to_resolution]
    (the outer fit, then the centred crop), on which the preview and the
    post-processing of a capture rely, returns an image of exactly Rh rows
    of Rw pixels. *)
Theorem fit_to_resolution_exact_size E Rw Rh H W frame :
  covers_target E → resizes_to_size E →
  (0 < H)%nat → (0 < W)%nat → has_shape H W frame →
  0 < Rw → 0 < Rh →
  (∃ out, _fit_to_resolution E (Rw, Rh) frame = Ret out ∧
          shape out = (Z.to_nat Rh, Z.to_nat Rw) ∧
          has_shape (Z.to_nat Rh) (Z.to_nat Rw) out) ∧
  (∃ out, normalized E (Rw, Rh) frame = Ret out ∧
          shape out = (Z.to_nat Rh, Z.to_nat Rw) ∧
          has_shape (Z.to_nat Rh) (Z.to_nat Rw) out).
Proof.
  intros Hfit Hres HH HW Himg HRw HRh. split.
  - destruct (fit_to_resolution_shape E Rw Rh H W frame) as (out & Hout & Hshape); auto.
    exists out. split; [exact Hout|]. split; [|exact Hshape].
    apply has_shape_shape; [lia|exact Hshape].
  - destruct (normalized_shape E Rw Rh H W frame) as (out & Hout & Hshape); auto.
    exists out. split; [exact Hout|]. split; [|exact Hshape].
    apply has_shape_shape; [lia|exact Hshape].
Qed.

Lemma sample_fit_outer_covers t : covers_target (sample_env t).
Proof.
  intros ow oh tw th How Hoh Htw Hth. simpl. unfold sample_fit_outer.
  destruct (Z.ltb_spec (tw * oh) (th * ow)) as [Hlt|Hge]; simpl.
  - split; [|lia]. apply Z.div_le_lower_bound; nia.
  - split; [lia|]. apply Z.div_le_lower_bound; nia.
Qed.

Lemma sample_resize_shape t : resizes_to_size (sample_env t).
Proof.
  intros image w h _ _ _. simpl. unfold sample_resize. simpl. split.
  - by rewrite length_map, length_seq.
  - apply Forall_map, Forall_forall. intros y _. simpl.
    by rewrite length_map, length_seq.
Qed.

Lemma sample_frame_shape : has_shape 2 4 sample_frame.
Proof. split; [reflexivity|]. repeat constructor. Qed.

Lemma fit_to_resolution_exact_size_witness :
  (∃ out, _fit_to_resolution (sample_env quarter_clock) (2, 2) sample_frame = Ret out ∧
          shape out = (Z.to_nat 2, Z.to_nat 2) ∧
          has_shape (Z.to_nat 2) (Z.to_nat 2) out) ∧
  (∃ out, normalized (sample_env quarter_clock) (2, 2) sample_frame = Ret out ∧
          shape out = (Z.to_nat 2, Z.to_nat 2) ∧
          has_shape (Z.to_nat 2) (Z.to_nat 2) out).
Proof.
  apply (fit_to_resolution_exact_size (sample_env quarter_clock) 2 2 2 4 sample_frame).
  - apply sample_fit_outer_covers.
  - apply sample_resize_shape.
  - lia.
  - lia.
  - apply sample_frame_shape.
  - lia.
  - lia.
Defined.

(** ** C3, C10: the effect argument of [capture] *)

(** C3 (amended). For every destination and every effect argument whose
    string form, in lower case, is not one of [IMAGE_EFFECTS], [capture]
    raises ValueError and leaves the world as it was: no frame is read
    from the device, the pending captures are unchanged. *)
Theorem capture_rejects_unknown_effect filename effect w :
  py_in (lower (py_str effect)) IMAGE_EFFECTS = false →
  capture filename effect w = (Raise ValueError, w).
Proof. intros Hin. unfold capture. rewrite Hin. reflexivity. Qed.

Lemma capture_rejects_unknown_effect_witness :
  capture "photo.jpg" (PyStr "bogus-effect") (sample_world 1)
  = (Raise ValueError, sample_world 1).
Proof.
  apply (capture_rejects_unknown_effect "photo.jpg" (PyStr "bogus-effect") (sample_world 1)).
  reflexivity.
Defined.

(** C3, as the specification has it, fails on "BLUR": the name is not in
    the enumerated set, and the capture is done. *)
Lemma capture_rejects_counterexample :
  ¬ (∀ filename name w,
       ¬ In name IMAGE_EFFECTS →
       capture filename (PyStr name) w = (Raise ValueError, w)).
Proof.
  intros H.
  specialize (H "photo.jpg" "BLUR" (sample_world 1)).
  assert (Hnot : ¬ In "BLUR" IMAGE_EFFECTS).
  { unfold IMAGE_EFFECTS. simpl. intros Hin.
    repeat (destruct Hin as [Hin|Hin]; [discriminate Hin|]). exact Hin. }
  specialize (H Hnot). vm_compute in H. discriminate H.
Qed.

Lemma cam_read_frame w image rest :
  _cam (self w) = {| opened := true; feed := Some image :: rest |} →
  cam_read w = (Ret (Some image),
                emit (EvRead true) (on_self (set_cam {| opened := true; feed := rest |}) w)).
Proof. intros H. unfold cam_read. rewrite H. reflexivity. Qed.

(** C10. [capture] validates the lower-case string form of its effect
    argument: an argument whose form is not in [IMAGE_EFFECTS] is
    rejected with ValueError, one whose form is in it is stored, in lower
    case, with the frame read; [None] (the default) has the form "none"
    and "BLUR" the form "blur", both in the set. *)
Theorem capture_normalizes_effect filename w :
  (∀ effect, py_in (lower (py_str effect)) IMAGE_EFFECTS = false →
             fst (capture filename effect w) = Raise ValueError) ∧
  (∀ effect image rest,
     py_in (lower (py_str effect)) IMAGE_EFFECTS = true →
     _cam (self w) = {| opened := true; feed := Some image :: rest |} →
     fst (capture filename effect w) = Ret tt ∧
     _captures (self (snd (capture filename effect w))) !! filename
       = Some (image, lower (py_str effect))) ∧
  (lower (py_str PyNone) = "none" ∧ py_in "none" IMAGE_EFFECTS = true) ∧
  (lower (py_str (PyStr "BLUR")) = "blur" ∧ py_in "blur" IMAGE_EFFECTS = true).
Proof.
  split; [|split; [|split; split; reflexivity]].
  - intros effect Hin. unfold capture. by rewrite Hin.
  - intros effect image rest Hin Hcam. unfold capture. rewrite Hin. cbn [negb]. msimpl.
    rewrite (cam_read_frame w image rest Hcam).
    unfold _hide_overlay. msimpl. split; [reflexivity|].
    simpl. apply lookup_insert_eq.
Qed.

Lemma capture_normalizes_effect_witness :
  fst (capture "photo.jpg" (PyStr "Sepia") (sample_world 1))
    = Raise ValueError ∧
  fst (capture "photo.jpg" (PyStr "BLUR") (sample_world 1))
    = Ret tt ∧
  _captures (self (snd (capture "photo.jpg" (PyStr "BLUR")
                          (sample_world 1)))) !! "photo.jpg"
    = Some (sample_frame, "blur") ∧
  fst (capture "photo.jpg" PyNone (sample_world 1)) = Ret tt.
Proof.
  destruct (capture_normalizes_effect "photo.jpg" (sample_world 1))
    as (Hbad & Hgood & _ & _).
  split; [apply Hbad; reflexivity|].
  destruct (Hgood (PyStr "BLUR") sample_frame [] eq_refl eq_refl) as [Hret Hstored].
  split; [exact Hret|]. split; [exact Hstored|].
  apply (Hgood PyNone sample_frame [] eq_refl eq_refl).
Defined.

(** ** C4: a device read that fails *)

Lemma cam_read_preserves w r w1 :
  cam_read w = (r, w1) →
  _window (self w1) = _window (self w) ∧
  _captures (self w1) = _captures (self w) ∧
  shown w1 = shown w ∧
  ∃ ok, trace w1 = (trace w ++ [EvRead ok])%list.
Proof.
  unfold cam_read. intros H.
  destruct (opened (_cam (self w))), (feed (_cam (self w))) as [|o rest];
    injection H as <- <-; simpl; eauto.
Qed.



(** ** C5: the durations of the timed phases *)

Lemma py_int_lt_1 (seconds : Q) : (seconds < 1)%Q → py_int seconds < 1.
Proof.
  unfold Qlt, py_int. destruct seconds as [n d]. simpl. intros Hlt.
  rewrite Z.mul_1_r in Hlt.
  destruct (Z.le_gt_cases 0 n) as [Hn|Hn].
  - rewrite Z.quot_small; lia.
  - pose proof (Z.quot_opp_l n (Z.pos d) ltac:(lia)) as Hopp.
    pose proof (Z.quot_pos (- n) (Z.pos d) ltac:(lia) ltac:(lia)). lia.
Qed.

Lemma py_int_ge_1 (seconds : Q) : (1 <= seconds)%Q → 1 ≤ py_int seconds.
Proof.
  unfold Qle, py_int. destruct seconds as [n d]. simpl. intros Hle.
  rewrite Z.mul_1_r in Hle.
  apply Z.quot_le_lower_bound; lia.
Qed.

(** C5. [preview_countdown] and [preview_wait] need a duration of at
    least one second: with a smaller one (zero or negative, too) they
    raise ValueError and leave the world as it was, nothing read or
    rendered; with one of at least 1 they go on to their timer and loop. *)
Theorem timed_phases_require_one_second E fuel seconds alpha w :
  ((seconds < 1)%Q →
     preview_countdown E fuel seconds alpha w = (Raise ValueError, w) ∧
     preview_wait E fuel seconds alpha w = (Raise ValueError, w)) ∧
  ((1 <= seconds)%Q →
     preview_countdown E fuel seconds alpha w
       = (do timer <- PoolingTimer_start E (py_int seconds);
          run countdown_loop E fuel timer (py_int seconds) alpha;
          show_smile E alpha) w ∧
     preview_wait E fuel seconds alpha w
       = (do timer <- PoolingTimer_start E (py_int seconds);
          run wait_loop E fuel timer;
          show_smile E alpha) w).
Proof.
  unfold preview_countdown, preview_wait. split.
  - intros Hlt. pose proof (py_int_lt_1 seconds Hlt).
    destruct (Z.ltb_spec (py_int seconds) 1); [done|lia].
  - intros Hge. pose proof (py_int_ge_1 seconds Hge).
    destruct (Z.ltb_spec (py_int seconds) 1); [lia|done].
Qed.

Lemma timed_phases_require_one_second_witness :
  preview_countdown (sample_env quarter_clock) 5 0 80 (sample_world 3)
    = (Raise ValueError, sample_world 3) ∧
  preview_wait (sample_env quarter_clock) 5 (1 # 2) 80 (sample_world 3)
    = (Raise ValueError, sample_world 3) ∧
  fst (preview_countdown (sample_env quarter_clock) 7 3 80 (sample_world 7)) = Ret tt.
Proof.
  split; [|split].
  - apply (timed_phases_require_one_second (sample_env quarter_clock) 5 0 80 (sample_world 3)).
    reflexivity.
  - apply (timed_phases_require_one_second (sample_env quarter_clock) 5 (1 # 2) 80
             (sample_world 3)).
    reflexivity.
  - destruct (timed_phases_require_one_second (sample_env quarter_clock) 7 3 80
                (sample_world 7)) as [_ Hgo].
    destruct (Hgo ltac:(discriminate)) as [-> _]. reflexivity.
Defined.

(** ** C9: releasing the device twice *)

(** C9. [quit] never raises: a second [quit] after the first returns as
    well and leaves the closed device as it is, and so does [quit] on a
    device that was never open. *)
Theorem quit_twice_is_safe w :
  ∃ w1 w2,
    quit w = (Ret tt, w1) ∧ quit w1 = (Ret tt, w2) ∧
    opened (_cam (self w1)) = false ∧
    _cam (self w2) = _cam (self w1) ∧
    (opened (_cam (self w)) = false → _cam (self w1) = _cam (self w)).
Proof.
  eexists _, _. split; [reflexivity|]. split; [reflexivity|].
  simpl. split; [reflexivity|]. split; [reflexivity|].
  intros Hclosed. destruct (_cam (self w)) as [o f]. simpl in *. by subst o.
Qed.

Lemma quit_twice_is_safe_witness :
  _cam (self (snd (quit (new_world (CvCamera_init {| opened := false; feed := [] |}
                                      200 (4, 2) 0 false)))))
  = {| opened := false; feed := [] |}.
Proof.
  destruct (quit_twice_is_safe
              (new_world (CvCamera_init {| opened := false; feed := [] |} 200 (4, 2) 0 false)))
    as (w1 & w2 & H1 & _ & _ & _ & Hno).
  rewrite H1. simpl. apply Hno. reflexivity.
Defined.

(** ** C8: the pending captures *)

Lemma post_process_keeps_captures E capture_path w :
  _captures (self (snd (_post_process_capture E capture_path w))) = _captures (self w).
Proof.
  unfold _post_process_capture. msimpl.
  destruct (_captures (self w) !! capture_path) as [[image effect]|]; [|reflexivity].
  msimpl. destruct (cvtColor BGR2RGB image) as [rgb| |]; try reflexivity.
  destruct (_fit_to_resolution E (resolution (self w)) rgb); try reflexivity.
  unfold imwrite. by destruct (cv_imwrite E _ _) as [[]|].
Qed.

Lemma capture_captures filename effect w :
  match capture filename effect w with
  | (Ret _, w') =>
      ∃ image w1, cam_read w = (Ret (Some image), w1) ∧
        _captures (self w') = <[filename := (image, lower (py_str effect))]> (_captures (self w))
  | (_, w') => _captures (self w') = _captures (self w)
  end.
Proof.
  unfold capture.
  destruct (py_in (lower (py_str effect)) IMAGE_EFFECTS); cbn [negb]; [|reflexivity].
  msimpl. destruct (cam_read w) as [r w1] eqn:Hread.
  destruct (cam_read_preserves w r w1 Hread) as (_ & Hcap & _).
  unfold cam_read in Hread.
  destruct (opened (_cam (self w))), (feed (_cam (self w))) as [|o rest];
    injection Hread as <- <-; try exact Hcap.
  destruct o as [image|]; [|exact Hcap].
  unfold _hide_overlay. msimpl. eexists image, _. split; [reflexivity|]. reflexivity.
Qed.

Lemma do_call_keeps_pending E c w key :
  is_Some (_captures (self w) !! key) →
  is_Some (_captures (self (snd (do_call E c w))) !! key).
Proof.
  intros Hkey. destruct c as [filename effect|capture_path]; simpl.
  - pose proof (capture_captures filename effect w) as Hc.
    destruct (capture filename effect w) as [[[]| |] w']; simpl.
    + destruct Hc as (image & w1 & _ & ->).
      destruct (decide (filename = key)) as [->|Hne].
      * rewrite lookup_insert_eq. eauto.
      * by rewrite lookup_insert_ne.
    + by rewrite Hc.
    + by rewrite Hc.
  - unfold bind.
    pose proof (post_process_keeps_captures E capture_path w) as Hp.
    destruct (_post_process_capture E capture_path w) as [[image| |] w']; simpl in *;
      by rewrite Hp.
Qed.

(** C8 (amended). A [capture] that returns stores the frame it read under
    its destination and touches no other key, so that a key holds one
    frame, the last one captured for it; a [capture] that raises stores
    nothing. [_post_process_capture] needs the entry of its path (KeyError
    without it) and leaves the mapping as it is: an entry stays pending
    through every later sequence of calls. *)
Theorem pending_captures_mapping E w :
  (∀ filename effect w',
     capture filename effect w = (Ret tt, w') →
     ∃ image w1, cam_read w = (Ret (Some image), w1) ∧
       _captures (self w') !! filename = Some (image, lower (py_str effect)) ∧
       ∀ key, key ≠ filename → _captures (self w') !! key = _captures (self w) !! key) ∧
  (∀ filename effect e w',
     capture filename effect w = (Raise e, w') → _captures (self w') = _captures (self w)) ∧
  (∀ filename e1 e2 w1 w2,
     capture filename e1 w = (Ret tt, w1) → capture filename e2 w1 = (Ret tt, w2) →
     ∃ image2 w1', cam_read w1 = (Ret (Some image2), w1') ∧
       _captures (self w2) = <[filename := (image2, lower (py_str e2))]> (_captures (self w))) ∧
  (∀ capture_path,
     _captures (self (snd (_post_process_capture E capture_path w))) = _captures (self w) ∧
     (_captures (self w) !! capture_path = None →
      _post_process_capture E capture_path w = (Raise KeyError, w))) ∧
  (∀ cs key,
     is_Some (_captures (self w) !! key) →
     is_Some (_captures (self (run_calls E cs w)) !! key)).
Proof.
  split; [|split; [|split; [|split]]].
  - intros filename effect w' Hc.
    pose proof (capture_captures filename effect w) as H. rewrite Hc in H.
    destruct H as (image & w1 & Hread & Hcap). exists image, w1.
    split; [exact Hread|]. rewrite Hcap. split; [apply lookup_insert_eq|].
    intros key Hne. by rewrite lookup_insert_ne.
  - intros filename effect e w' Hc.
    pose proof (capture_captures filename effect w) as H. by rewrite Hc in H.
  - intros filename e1 e2 w1 w2 Hc1 Hc2.
    pose proof (capture_captures filename e1 w) as H1. rewrite Hc1 in H1.
    pose proof (capture_captures filename e2 w1) as H2. rewrite Hc2 in H2.
    destruct H1 as (image1 & w1' & _ & Hcap1).
    destruct H2 as (image2 & w2' & Hread2 & Hcap2).
    exists image2, w2'. split; [exact Hread2|].
    rewrite Hcap2, Hcap1. apply insert_insert_eq.
  - intros capture_path. split; [apply post_process_keeps_captures|].
    intros Hnone. unfold _post_process_capture. msimpl. by rewrite Hnone.
  - intros cs. revert w. induction cs as [|c cs IH]; intros w key Hkey; simpl; [done|].
    apply IH. by apply do_call_keeps_pending.
Qed.

Lemma pending_captures_mapping_witness :
  is_Some (_captures (self (run_calls (sample_env quarter_clock)
                              [PostProcess "a.jpg"; Capture "b.jpg" PyNone; PostProcess "a.jpg"]
                              (snd (capture "a.jpg" PyNone (sample_world 2))))) !! "a.jpg").
Proof.
  destruct (pending_captures_mapping (sample_env quarter_clock)
              (snd (capture "a.jpg" PyNone (sample_world 2))))
    as (_ & _ & _ & _ & Hkeep).
  apply Hkeep. vm_compute. eauto.
Defined.

(** C8, as the specification has it, fails: after the post-processing of
    a capture its entry is still pending. *)
Lemma post_process_consumes_counterexample :
  ¬ (∀ E capture_path w image w',
       _post_process_capture E capture_path w = (Ret image, w') →
       _captures (self w') !! capture_path = None).
Proof.
  intros H.
  specialize (H (sample_env quarter_clock) "a.jpg"
                (snd (capture "a.jpg" PyNone (sample_world 2)))).
  destruct (_post_process_capture (sample_env quarter_clock) "a.jpg"
              (snd (capture "a.jpg" PyNone (sample_world 2)))) as [o w'] eqn:Hrun.
  vm_compute in Hrun. injection Hrun as <- <-.
  specialize (H _ _ eq_refl). vm_compute in H. discriminate H.
Qed.

(** ** C6: the two flips *)




Lemma get_preview_image_eq E w win frame rest fitted :
  _window (self w) = Some win →
  _cam (self w) = {| opened := true; feed := Some frame :: rest |} →
  normalized E (resolution (self w)) frame = Ret fitted →
  _get_preview_image E w =
    (preview_finish E (self w) (win_rect win)
       (if _preview_hflip (self w) then cv_flip fitted 1 else fitted),
     emit (EvRead true) (on_self (set_cam {| opened := true; feed := rest |}) w)).
Proof.
  intros Hwin Hcam Hnorm. unfold _get_preview_image. msimpl.
  rewrite (get_rect_eq w win Hwin). msimpl.
  rewrite (cam_read_frame w frame rest Hcam). msimpl.
  unfold normalized in Hnorm.
  destruct (cvtColor BGR2RGB frame) as [rgb| |]; try discriminate Hnorm.
  cbn [self emit on_self resolution set_cam _preview_hflip _overlay _overlay_mask].
  rewrite Hnorm. unfold preview_finish.
  destruct (shape (if _preview_hflip (self w) then cv_flip fitted 1 else fitted))
    as [height width].
  destruct (resize E _ _) as [resized| |]; try reflexivity.
  destruct (_overlay (self w)) as [overlay|]; [|reflexivity].
  destruct (_overlay_mask (self w)) as [mask|]; [|reflexivity].
  destruct (np_inplace Z.mul resized mask) as [masked| |]; try reflexivity.
  destruct (np_inplace Z.add masked overlay); reflexivity.
Qed.

Lemma post_process_write E capture_path w frame effect fitted :
  _captures (self w) !! capture_path = Some (frame, effect) →
  normalized E (resolution (self w)) frame = Ret fitted →
  _post_process_capture E capture_path w
  = match cv_imwrite E capture_path
            (if _capture_hflip (self w) then cv_flip fitted 0 else fitted) with
    | Some written =>
        (Ret (if _capture_hflip (self w) then cv_flip fitted 0 else fitted),
         emit (EvWrite capture_path)
           (if written
            then put_file capture_path
                   (if _capture_hflip (self w) then cv_flip fitted 0 else fitted) w
            else w))
    | None => (Raise CvError, w)
    end.
Proof.
  intros Hentry Hnorm. unfold _post_process_capture. msimpl. rewrite Hentry. msimpl.
  unfold normalized in Hnorm.
  destruct (cvtColor BGR2RGB frame) as [rgb| |]; try discriminate Hnorm.
  rewrite Hnorm. unfold imwrite.
  destruct (negb (effect =? "none")%string);
    by destruct (cv_imwrite E _ _) as [[]|].
Qed.



(** ** C2: the countdown *)

Lemma broadcast_same {A} n (l : list A) : length l = n → broadcast n l = Some l.
Proof. intros <-. unfold broadcast. by rewrite Nat.eqb_refl. Qed.

Lemma np_inplace_rows f w (a b : array2 pix3) :
  Forall (λ r, length r = w) a → Forall (λ r, length r = w) b →
  length a = length b →
  ∃ c, all_some (zip_with (λ ra rb, option_map (zip_with (pix_op f) ra)
                                               (broadcast (length ra) rb)) a b) = Some c ∧
       length c = length a ∧ Forall (λ r, length r = w) c.
Proof.
  intros Ha. revert b. induction Ha as [|ra a Hra Ha IH]; intros b Hb Hlen.
  - destruct b; [|discriminate Hlen]. exists []. simpl. auto.
  - destruct b as [|rb b]; [discriminate Hlen|].
    inversion Hb as [|? ? Hrb Hb']; subst. injection Hlen as Hlen.
    destruct (IH b Hb' Hlen) as (c & Hc & Hclen & Hcw).
    exists (zip_with (pix_op f) ra rb :: c). cbn [zip_with all_some].
    rewrite broadcast_same by congruence. cbn [option_map]. rewrite Hc.
    split; [reflexivity|]. split; [simpl; congruence|].
    constructor; [|exact Hcw]. rewrite length_zip_with_l_eq; congruence.
Qed.

Lemma np_inplace_shape f h w (a b : array2 pix3) :
  has_shape h w a → has_shape h w b →
  ∃ c, np_inplace f a b = Ret c ∧ has_shape h w c.
Proof.
  intros [Hah Haw] [Hbh Hbw]. unfold np_inplace, nrows.
  rewrite broadcast_same by congruence.
  destruct (np_inplace_rows f w a b Haw Hbw ltac:(congruence)) as (c & Hc & Hclen & Hcw).
  rewrite Hc. exists c. split; [reflexivity|]. split; [congruence|exact Hcw].
Qed.

Lemma flip_horizontal_shape {A} h w (a : array2 A) :
  has_shape h w a → has_shape h w (cv_flip a 1).
Proof.
  intros [Hh Hw]. unfold cv_flip. cbn [Z.eqb Z.ltb Z.compare]. split.
  - by rewrite length_map.
  - apply Forall_map. eapply Forall_impl; [exact Hw|].
    intros r Hr. simpl. by rewrite length_rev.
Qed.

Lemma preview_finish_ready E win s image :
  resizes_to_size E →
  0 < rect_width (win_rect win) → 0 < rect_height (win_rect win) →
  0 < fst (resolution s) → 0 < snd (resolution s) →
  new_size_keep_aspect_ratio E (resolution s)
    (rect_width (win_rect win), rect_height (win_rect win))
  = (rect_width (win_rect win), rect_height (win_rect win)) →
  overlay_fits win s →
  has_shape (Z.to_nat (snd (resolution s))) (Z.to_nat (fst (resolution s))) image →
  ∃ out, preview_finish E s (win_rect win) image = Ret (Some out).
Proof.
  intros Hres Hrw Hrh HRw HRh Hview Hov Himg.
  unfold preview_finish.
  destruct (resolution s) as [Rw Rh]. cbn [fst snd] in *.
  assert (Hne : is_empty image = false).
  { apply (has_shape_not_empty (Z.to_nat Rh) (Z.to_nat Rw)); [lia|lia|exact Himg]. }
  rewrite (has_shape_shape (Z.to_nat Rh) (Z.to_nat Rw) image ltac:(lia) Himg).
  rewrite !Z2Nat.id by lia. rewrite Hview.
  unfold resize. rewrite Hne. cbn [orb fst snd].
  destruct (Z.leb_spec (rect_width (win_rect win)) 0); [exfalso; lia|].
  destruct (Z.leb_spec (rect_height (win_rect win)) 0); [exfalso; lia|].
  cbn [orb].
  pose proof (Hres image _ _ Hne Hrw Hrh) as Hsized.
  unfold overlay_fits in Hov.
  destruct (_overlay s) as [overlay|]; [|eauto].
  destruct Hov as (Hoverlay & mask & -> & Hmask).
  destruct (np_inplace_shape Z.mul _ _ _ mask Hsized Hmask) as (masked & -> & Hmasked).
  destruct (np_inplace_shape Z.add _ _ _ overlay Hmasked Hoverlay) as (out & -> & _).
  eauto.
Qed.

Lemma ready_transfer E win w w' :
  ready E win w →
  _window (self w') = _window (self w) →
  resolution (self w') = resolution (self w) →
  Forall frame_ok (feed (_cam (self w'))) →
  _overlay (self w') = _overlay (self w) →
  _overlay_mask (self w') = _overlay_mask (self w) →
  ready E win w'.
Proof.
  intros [Hwin Hrect Hres Hview Hframes Hov] Hw Hr Hf Ho Hm.
  constructor; rewrite ?Hw, ?Hr; try assumption.
  unfold overlay_fits in *. rewrite Ho, Hm. exact Hov.
Qed.

Lemma get_preview_image_none E win w w1 :
  ready E win w → cam_read w = (Ret None, w1) →
  _get_preview_image E w = (Ret None, w1) ∧ ready E win w1 ∧
  ticks w1 = ticks w ∧ shown w1 = shown w ∧
  _overlay (self w1) = _overlay (self w) ∧
  ∃ ok, trace w1 = (trace w ++ [EvRead ok])%list.
Proof.
  intros Hready Hread.
  split.
  { unfold _get_preview_image. msimpl.
    rewrite (get_rect_eq w win (ready_window E win w Hready)).
    msimpl. by rewrite Hread. }
  pose proof (ready_frames E win w Hready) as Hframes.
  unfold cam_read in Hread.
  destruct (opened (_cam (self w))), (feed (_cam (self w))) as [|[frame|] rest];
    simplify_eq;
    (split; [eapply ready_transfer; [exact Hready|try reflexivity..]|simpl; eauto]);
    simpl; try exact (ready_frames E win w Hready).
  by inversion Hframes.
Qed.

Lemma get_preview_image_ready E win w :
  well_behaved E → ready E win w →
  ∃ r w', _get_preview_image E w = (Ret r, w') ∧ ready E win w' ∧
          ticks w' = ticks w ∧ shown w' = shown w ∧
          _overlay (self w') = _overlay (self w) ∧
          ∃ ok, trace w' = (trace w ++ [EvRead ok])%list.
Proof.
  intros (Hfit & Hres & _ & _) Hready.
  pose proof Hready as [Hwin [Hrw Hrh] [HRw HRh] Hview Hframes Hov].
  destruct (cam_read w) as [r w1] eqn:Hread.
  destruct (_cam (self w)) as [o fd] eqn:Hcam.
  assert (Hr : r = Ret None ∨
               ∃ frame rest, o = true ∧ fd = Some frame :: rest).
  { unfold cam_read in Hread. rewrite Hcam in Hread. cbn [opened feed] in Hread.
    destruct o, fd as [|[frame|] rest]; injection Hread as <- <-; eauto. }
  destruct Hr as [Hr|Hr].
  { subst r. exists None, w1. exact (get_preview_image_none E win w w1 Hready Hread). }
  destruct Hr as (frame & rest & Ho & Hfd). subst o fd.
  clear Hread. cbn [feed] in Hframes.
  inversion Hframes as [|? ? Hok Hrest]; subst.
  destruct Hok as (H & W & HH & HW & Hframe).
  destruct (resolution (self w)) as [Rw Rh] eqn:Hresolution. cbn [fst snd] in *.
  destruct (normalized_shape E Rw Rh H W frame Hfit Hres HH HW Hframe HRw HRh)
    as (fitted & Hnorm & Hfitted).
  rewrite <- Hresolution in Hnorm.
  rewrite (get_preview_image_eq E w win frame rest fitted Hwin Hcam Hnorm).
  destruct (preview_finish_ready E win (self w)
              (if _preview_hflip (self w) then cv_flip fitted 1 else fitted))
    as (out & Hout); try assumption; rewrite ?Hresolution; try assumption.
  { cbn [fst snd]. destruct (_preview_hflip (self w)); [|exact Hfitted].
    by apply flip_horizontal_shape. }
  rewrite Hout. eexists _, _. split; [reflexivity|].
  split; [|simpl; eauto].
  eapply ready_transfer; [exact Hready|simpl; try reflexivity..]. exact Hrest.
Qed.

(** One turn of the display shows one frame and renders nothing. *)
Lemma show_frame_ready E win w :
  well_behaved E → ready E win w →
  ∃ w' ev, show_frame E w = (Ret tt, w') ∧ ready E win w' ∧
           ticks w' = ticks w ∧
           _overlay (self w') = _overlay (self w) ∧
           trace w' = (trace w ++ ev)%list ∧
           ∀ pending rest,
             renders_before pending (ev ++ rest) = pending :: renders_before [] rest.
Proof.
  intros HE Hready.
  destruct (get_preview_image_ready E win w HE Hready)
    as (r & w1 & Hprev & Hready1 & Hticks & _ & Hov & ok & Htrace).
  pose proof (ready_window E win w Hready) as Hwin.
  pose proof (ready_window E win w1 Hready1) as Hwin1.
  unfold show_frame. msimpl. rewrite Hwin. msimpl. rewrite Hprev.
  unfold show_image. msimpl. rewrite Hwin1.
  assert (Hbase : ready E win (emit EvPump (count_show (emit (EvShow r) w1)))).
  { eapply ready_transfer; [exact Hready1|try reflexivity..].
    exact (ready_frames E win w1 Hready1). }
  destruct (show_image_result E (shown w1)) as [rect|]; [destruct (rect_truthy rect)|].
  - eexists _, [EvRead ok; EvShow r; EvPump; EvUpdate rect].
    split; [reflexivity|]. split.
    { eapply ready_transfer; [exact Hbase|try reflexivity..].
      exact (ready_frames E win _ Hbase). }
    simpl. rewrite Htrace, <- !app_assoc. auto.
  - eexists _, [EvRead ok; EvShow r; EvPump].
    split; [reflexivity|]. split; [exact Hbase|].
    simpl. rewrite Htrace, <- !app_assoc. auto.
  - eexists _, [EvRead ok; EvShow r; EvPump].
    split; [reflexivity|]. split; [exact Hbase|].
    simpl. rewrite Htrace, <- !app_assoc. auto.
Qed.

Lemma show_overlay_ready E win w text alpha :
  well_behaved E → ready E win w →
  ∃ w', _show_overlay E text alpha w = (Ret tt, w') ∧ ready E win w' ∧
        ticks w' = ticks w ∧
        is_none (_overlay (self w')) = false ∧
        trace w' = (trace w ++ [EvRender (py_str text) alpha])%list.
Proof.
  intros (_ & _ & Hrender & _) Hready.
  pose proof Hready as [Hwin [Hrw Hrh] _ _ Hframes _].
  pose proof (Hrender _ _ (py_str text) alpha Hrw Hrh) as Hshape.
  fold (rendered E win text alpha) in Hshape.
  rewrite (show_overlay_eq E w win text alpha
             (Z.to_nat (rect_height (win_rect win))) (Z.to_nat (rect_width (win_rect win)))
             Hwin ltac:(lia) ltac:(lia) Hshape).
  eexists. split; [reflexivity|]. split; [|auto].
  destruct Hready as [? ? ? ? ? _]. constructor; try assumption.
  unfold overlay_fits. simpl. split; [by apply has_shape_map|].
  eexists. split; [reflexivity|]. by apply has_shape_map.
Qed.

Lemma is_timeout_eq E timer w :
  is_timeout E timer w =
    (Ret (Qle_bool (inject_Z (pt_timeout timer)) (clock E (ticks w) - pt_time timer)), tick w).
Proof. reflexivity. Qed.

Lemma remaining_eq E timer w :
  remaining E timer w =
    (Ret (inject_Z (pt_timeout timer) - (clock E (ticks w) - pt_time timer))%Q, tick w).
Proof. reflexivity. Qed.

Lemma ready_tick E win w : ready E win w → ready E win (tick w).
Proof.
  intros Hready. eapply ready_transfer; [exact Hready|try reflexivity..].
  exact (ready_frames E win w Hready).
Qed.

(** The loop from turn [i] on, when the timer times out [k] turns later. *)
Lemma countdown_loop_turns E win alpha t0 T fresh k :
  well_behaved E →
  ∀ i w last fuel,
    ready E win w →
    ticks w = (t0 + 2 * i + 1)%nat →
    Qle_bool (inject_Z T) (clock E (t0 + 2 * (i + k) + 1) - clock E t0) = true →
    (∀ m, (i ≤ m < i + k)%nat →
          Qle_bool (inject_Z T) (clock E (t0 + 2 * m + 1) - clock E t0) = false) →
    last = match i with O => T | S j => shown_second E t0 T j end →
    is_none (_overlay (self w)) = match i with O => fresh | S _ => false end →
    (k < fuel)%nat →
    ∃ w' new,
      countdown_loop E fuel {| pt_timeout := T; pt_time := clock E t0 |} last alpha w
        = (Ret tt, w') ∧
      ready E win w' ∧
      ticks w' = (t0 + 2 * (i + k) + 2)%nat ∧
      trace w' = (trace w ++ new)%list ∧
      ∀ rest, renders_before [] (new ++ rest)
              = (map (turn_renders E t0 T fresh) (seq i k) ++ renders_before [] rest)%list.
Proof.
  intros HE. induction k as [|k IH]; intros i w last fuel Hready Hticks Hout Hin Hlast Hnone Hfuel.
  - destruct fuel as [|fuel]; [lia|]. cbn [countdown_loop]. msimpl.
    rewrite is_timeout_eq. cbn [pt_timeout pt_time]. rewrite Hticks.
    replace (i + 0)%nat with i in Hout by lia. rewrite Hout.
    exists (tick w), []. split; [reflexivity|]. split; [by apply ready_tick|].
    split; [simpl; lia|]. split; [by rewrite app_nil_r|]. reflexivity.
  - destruct fuel as [|fuel]; [lia|]. cbn [countdown_loop]. msimpl.
    rewrite is_timeout_eq. cbn [pt_timeout pt_time]. rewrite Hticks.
    rewrite (Hin i) by lia.
    rewrite remaining_eq. cbn [pt_timeout pt_time ticks tick]. rewrite Hticks.
    replace (S (t0 + 2 * i + 1)) with (t0 + 2 * i + 2)%nat by lia.
    fold (shown_second E t0 T i).
    cbn [self tick].
    assert (Hcond : is_none (_overlay (self w)) || negb (shown_second E t0 T i =? last)
                    = rerenders E t0 T fresh i).
    { rewrite Hnone, Hlast. by destruct i. }
    rewrite Hcond.
    assert (Hnext : ∃ w2 ev,
              (if rerenders E t0 T fresh i
               then (run _show_overlay E (PyStr (py_str (PyInt (shown_second E t0 T i)))) alpha;
                     ret (shown_second E t0 T i))
               else ret last) (tick (tick w))
              = (Ret (shown_second E t0 T i), w2) ∧
              ready E win w2 ∧ ticks w2 = (t0 + 2 * (S i) + 1)%nat ∧
              is_none (_overlay (self w2)) = false ∧
              trace w2 = (trace w ++ ev)%list ∧
              ∀ rest, renders_before [] (ev ++ rest)
                      = renders_before (turn_renders E t0 T fresh i) rest).
    { unfold turn_renders. destruct (rerenders E t0 T fresh i) eqn:Hre.
      - destruct (show_overlay_ready E win (tick (tick w))
                    (PyStr (py_str (PyInt (shown_second E t0 T i)))) alpha HE
                    ltac:(by do 2 apply ready_tick))
          as (w2 & Hshow & Hready2 & Hticks2 & Hnone2 & Htrace2).
        exists w2, [EvRender (str_of_Z (shown_second E t0 T i)) alpha].
        msimpl. rewrite Hshow. split; [reflexivity|]. split; [exact Hready2|].
        split; [rewrite Hticks2; simpl; lia|]. split; [exact Hnone2|].
        split; [exact Htrace2|]. reflexivity.
      - exists (tick (tick w)), [].
        apply orb_false_iff in Hcond as [Hov Heq].
        apply negb_false_iff, Z.eqb_eq in Heq. msimpl. rewrite Heq.
        split; [reflexivity|]. split; [by do 2 apply ready_tick|].
        split; [simpl; lia|]. split; [exact Hov|].
        split; [by rewrite app_nil_r|]. reflexivity. }
    destruct Hnext as (w2 & ev & Hrun2 & Hready2 & Hticks2 & Hnone2 & Htrace2 & Hev).
    cbv beta iota delta [bind ret lift update get_self raise] in Hrun2.
    rewrite Hrun2.
    destruct (show_frame_ready E win w2 HE Hready2)
      as (w3 & ev3 & -> & Hready3 & Hticks3 & Hov3 & Htrace3 & Hev3).
    destruct (IH (S i) w3 (shown_second E t0 T i) fuel Hready3) as
      (w' & new & Hloop & Hready' & Hticks' & Htrace' & Hnew).
    + congruence.
    + replace (S i + k)%nat with (i + S k)%nat by lia. exact Hout.
    + intros m Hm. apply Hin. lia.
    + reflexivity.
    + by rewrite Hov3.
    + lia.
    + exists w', (ev ++ ev3 ++ new)%list. split; [exact Hloop|].
      split; [exact Hready'|]. split; [rewrite Hticks'; lia|].
      split; [rewrite Htrace', Htrace3, Htrace2, <- !app_assoc; reflexivity|].
      intros rest. rewrite <- !app_assoc, Hev, Hev3, Hnew. reflexivity.
Qed.

Lemma show_smile_ready E win w alpha :
  well_behaved E → ready E win w →
  ∃ text w' new,
    smile_message E = Ret text ∧
    show_smile E alpha w = (Ret tt, w') ∧
    ticks w' = ticks w ∧
    trace w' = (trace w ++ new)%list ∧
    renders_before [] new = [[py_str text]] ∧
    ∃ image, last new = Some (EvShow image).
Proof.
  intros HE Hready.
  assert (Htext : ∃ text, smile_message E = Ret text).
  { destruct HE as (_ & _ & _ & [en Hen]). unfold smile_message. rewrite Hen.
    destruct (default en (LANGUAGES E !! language E) !! "smile_message"); eauto. }
  destruct Htext as [text Htext].
  destruct (show_overlay_ready E win w text alpha HE Hready)
    as (w1 & Hshow & Hready1 & Hticks1 & _ & Htrace1).
  destruct (get_preview_image_ready E win w1 HE Hready1)
    as (r & w2 & Hprev & Hready2 & Hticks2 & _ & _ & ok & Htrace2).
  exists text. eexists _, [EvRender (py_str text) alpha; EvRead ok; EvShow r].
  split; [exact Htext|]. split.
  { unfold show_smile. msimpl. rewrite Htext, Hshow.
    rewrite (ready_window E win w1 Hready1), Hprev.
    unfold show_image. msimpl. rewrite (ready_window E win w2 Hready2). reflexivity. }
  simpl. split; [congruence|]. split; [|eauto].
  rewrite Htrace2, Htrace1, <- !app_assoc. reflexivity.
Qed.

(** C2 (amended). With a duration of at least one second, on a running
    preview and a clock that reaches the deadline at the test of turn n,
    [preview_countdown] returns. Turn i of its loop shows one frame and
    renders the overlay before it, once, exactly when the number
    int(remaining + 1) of the turn differs from the one of the turn before
    (at the first turn: from the duration, or when no overlay is cached);
    the text rendered is that number. After the loop the smile message is
    rendered and one last frame is shown, the last thing the call does.
    The clock reading that ended the loop is at least the duration after
    the start of the timer. *)
Theorem countdown_rerenders_on_change E win seconds alpha w n fuel :
  well_behaved E → ready E win w →
  (1 <= seconds)%Q →
  times_out_at E (ticks w) (py_int seconds) n →
  (n < fuel)%nat →
  ∃ w' new text,
    preview_countdown E fuel seconds alpha w = (Ret tt, w') ∧
    trace w' = (trace w ++ new)%list ∧
    smile_message E = Ret text ∧
    renders_per_turn new
      = (map (turn_renders E (ticks w) (py_int seconds) (is_none (_overlay (self w))))
             (seq 0 n) ++ [[py_str text]])%list ∧
    (∃ image, last new = Some (EvShow image)) ∧
    ticks w' = (ticks w + 2 * n + 2)%nat ∧
    (inject_Z (py_int seconds) <= clock E (ticks w + 2 * n + 1) - clock E (ticks w))%Q.
Proof.
  intros HE Hready Hsec [Hout Hin] Hfuel.
  pose proof (py_int_ge_1 seconds Hsec) as HT.
  unfold preview_countdown.
  destruct (Z.ltb_spec (py_int seconds) 1); [exfalso; lia|].
  unfold PoolingTimer_start, time_time. msimpl.
  destruct (countdown_loop_turns E win alpha (ticks w) (py_int seconds)
              (is_none (_overlay (self w))) n HE 0%nat (tick w) (py_int seconds) fuel)
    as (w1 & new1 & Hloop & Hready1 & Hticks1 & Htrace1 & Hnew1);
    try reflexivity; try assumption.
  { by apply ready_tick. }
  { simpl. lia. }
  { intros m Hm. apply Hin. lia. }
  rewrite Hloop.
  destruct (show_smile_ready E win w1 alpha HE Hready1)
    as (text & w' & new2 & Htext & Hsmile & Hticks' & Htrace' & Hnew2 & image & Hlast).
  rewrite Hsmile. exists w', (new1 ++ new2)%list, text.
  split; [reflexivity|].
  split; [rewrite Htrace', Htrace1; simpl; by rewrite <- app_assoc|].
  split; [exact Htext|].
  split; [unfold renders_per_turn; by rewrite Hnew1, Hnew2|].
  split.
  { exists image. rewrite last_app, Hlast. reflexivity. }
  split; [rewrite Hticks', Hticks1; lia|].
  by apply Qle_bool_iff.
Qed.

Lemma sample_well_behaved t : well_behaved (sample_env t).
Proof.
  split; [apply sample_fit_outer_covers|]. split; [apply sample_resize_shape|].
  split.
  - intros w h text alpha _ _. apply (sample_overlay_shape (w, h) text alpha).
  - simpl. unfold sample_languages. rewrite lookup_insert_eq. eauto.
Qed.

Lemma sample_world_ready t n : ready (sample_env t) sample_window (sample_world n).
Proof.
  constructor; simpl; try (split; lia); try reflexivity.
  induction n as [|n IH]; simpl; constructor; [|exact IH].
  exists 2%nat, 4%nat. split; [lia|]. split; [lia|]. apply sample_frame_shape.
Qed.

Lemma quarter_clock_times_out : times_out_at (sample_env quarter_clock) 0 3 6.
Proof.
  split; [reflexivity|].
  intros m Hm. do 6 (destruct m as [|m]; [reflexivity|]). lia.
Qed.

Lemma countdown_rerenders_on_change_witness :
  ∃ w' new text,
    preview_countdown (sample_env quarter_clock) 7 3 80 (sample_world 7) = (Ret tt, w') ∧
    trace w' = (trace (sample_world 7) ++ new)%list ∧
    smile_message (sample_env quarter_clock) = Ret text ∧
    renders_per_turn new
      = (map (turn_renders (sample_env quarter_clock) (ticks (sample_world 7)) (py_int 3)
                (is_none (_overlay (self (sample_world 7)))))
             (seq 0 6) ++ [[py_str text]])%list ∧
    (∃ image, last new = Some (EvShow image)) ∧
    ticks w' = (ticks (sample_world 7) + 2 * 6 + 2)%nat ∧
    (inject_Z (py_int 3)
     <= quarter_clock (ticks (sample_world 7) + 2 * 6 + 1)
        - quarter_clock (ticks (sample_world 7)))%Q.
Proof.
  apply (countdown_rerenders_on_change (sample_env quarter_clock) sample_window 3 80
           (sample_world 7) 6 7).
  - apply sample_well_behaved.
  - apply sample_world_ready.
  - discriminate.
  - apply quarter_clock_times_out.
  - lia.
Defined.

(** C2, as the specification has it, fails on a clock that reads the same
    time at the start of the timer and in the first turn: a countdown of 3
    renders "4", and renders "3" at the next turn, half a second later,
    though the ceiling of the remaining time is 3 at both turns. *)
Lemma countdown_ceil_counterexample :
  ¬ (∀ E seconds alpha w fuel w' i texts,
       preview_countdown E fuel seconds alpha w = (Ret tt, w') →
       (S (S i) < length (renders_per_turn (skipn (length (trace w)) (trace w'))))%nat →
       renders_per_turn (skipn (length (trace w)) (trace w')) !! S i = Some texts →
       texts ≠ [] →
       ceil_second E (ticks w) (py_int seconds) (S i)
       ≠ ceil_second E (ticks w) (py_int seconds) i).
Proof.
  intros H.
  specialize (H (sample_env half_clock) 3%Q 80 (sample_world 7) 7%nat
                (snd (preview_countdown (sample_env half_clock) 7 3 80 (sample_world 7)))
                0%nat ["3"]).
  apply H.
  - vm_compute. reflexivity.
  - vm_compute. lia.
  - vm_compute. reflexivity.
  - discriminate.
  - vm_compute. reflexivity.
Qed.

(** * Further properties of the driver *)

(** ** From [capture] to [_post_process_capture] *)

Lemma capture_frame_eq filename effect w frame rest :
  py_in (lower (py_str effect)) IMAGE_EFFECTS = true →
  _cam (self w) = {| opened := true; feed := Some frame :: rest |} →
  capture filename effect w =
    (Ret tt,
     on_self (λ s, set_overlay None (set_overlay_mask None s))
       (emit EvSleep
          (on_self (λ s, set_captures
                           (<[filename := (frame, lower (py_str effect))]> (_captures s)) s)
             (emit (EvRead true)
                (on_self (set_cam {| opened := true; feed := rest |}) w))))).
Proof.
  intros Hin Hcam. unfold capture. rewrite Hin. cbn [negb]. msimpl.
  rewrite (cam_read_frame w frame rest Hcam). reflexivity.
Qed.

(** X1. A capture followed by the post-processing of its destination
    hands to cv2.imwrite the frame that the capture read, normalized and
    mirrored vertically when the capture flag is set, whatever the effect:
    an image of exactly the resolution of the device. When cv2.imwrite
    returns, the post-processing returns that image, and the file of the
    destination holds it if it was written; when cv2.imwrite refuses the
    destination, its error is raised and no file is written. In every
    case the device is not read again and the raw frame stays stored with
    the effect in lower case. *)
Theorem capture_then_post_process E filename effect w frame rest Rw Rh H W :
  covers_target E → resizes_to_size E →
  py_in (lower (py_str effect)) IMAGE_EFFECTS = true →
  _cam (self w) = {| opened := true; feed := Some frame :: rest |} →
  resolution (self w) = (Rw, Rh) → 0 < Rw → 0 < Rh →
  (0 < H)%nat → (0 < W)%nat → has_shape H W frame →
  ∃ w1 fitted image,
    capture filename effect w = (Ret tt, w1) ∧
    normalized E (Rw, Rh) frame = Ret fitted ∧
    image = (if _capture_hflip (self w) then cv_flip fitted 0 else fitted) ∧
    has_shape (Z.to_nat Rh) (Z.to_nat Rw) image ∧
    (∀ written,
       cv_imwrite E filename image = Some written →
       fst (_post_process_capture E filename w1) = Ret image ∧
       files (snd (_post_process_capture E filename w1)) !! filename
         = (if written then Some image else files w1 !! filename)) ∧
    (cv_imwrite E filename image = None →
       fst (_post_process_capture E filename w1) = Raise CvError ∧
       files (snd (_post_process_capture E filename w1)) = files w1) ∧
    _cam (self (snd (_post_process_capture E filename w1))) = _cam (self w1) ∧
    _captures (self (snd (_post_process_capture E filename w1))) !! filename
      = Some (frame, lower (py_str effect)).
Proof.
  intros Hfit Hres Hin Hcam Hresolution HRw HRh HH HW Hframe.
  destruct (normalized_shape E Rw Rh H W frame Hfit Hres HH HW Hframe HRw HRh)
    as (fitted & Hnorm & Hfitted).
  eexists _, fitted, _.
  split; [exact (capture_frame_eq filename effect w frame rest Hin Hcam)|].
  split; [exact Hnorm|]. split; [reflexivity|].
  split.
  { destruct (_capture_hflip (self w)); [|exact Hfitted].
    destruct Hfitted as [Hlen Hrows]. unfold cv_flip. cbn [Z.eqb]. split.
    - by rewrite length_rev.
    - apply Forall_forall. intros row Hrow. rewrite Forall_forall in Hrows.
      apply Hrows. apply list_elem_of_In. apply list_elem_of_In in Hrow.
      by apply in_rev. }
  set (w1 := on_self _ _).
  assert (Hentry : _captures (self w1) !! filename = Some (frame, lower (py_str effect)))
    by apply lookup_insert_eq.
  assert (Hnorm1 : normalized E (resolution (self w1)) frame = Ret fitted).
  { change (resolution (self w1)) with (resolution (self w)). by rewrite Hresolution. }
  rewrite (post_process_write E filename w1 frame (lower (py_str effect)) fitted
             Hentry Hnorm1).
  change (_capture_hflip (self w1)) with (_capture_hflip (self w)).
  split; [|split].
  - intros written Hwrite. rewrite Hwrite. split; [reflexivity|].
    destruct written; simpl; [apply lookup_insert_eq|reflexivity].
  - intros Hwrite. rewrite Hwrite. split; reflexivity.
  - destruct (cv_imwrite E filename _) as [[]|]; split; try reflexivity; exact Hentry.
Qed.

Lemma capture_then_post_process_witness :
  fst (_post_process_capture (sample_env quarter_clock) "a.jpg"
         (snd (capture "a.jpg" (PyStr "Emboss") (sample_world 1))))
    = Ret (map (map BGR2RGB) sample_frame) ∧
  files (snd (_post_process_capture (sample_env quarter_clock) "a.jpg"
                (snd (capture "a.jpg" (PyStr "Emboss") (sample_world 1))))) !! "a.jpg"
    = Some (map (map BGR2RGB) sample_frame).
Proof.
  destruct (capture_then_post_process (sample_env quarter_clock) "a.jpg" (PyStr "Emboss")
              (sample_world 1) sample_frame [] 4 2 2 4
              (sample_fit_outer_covers quarter_clock) (sample_resize_shape quarter_clock)
              eq_refl eq_refl eq_refl ltac:(lia) ltac:(lia) ltac:(lia) ltac:(lia)
              sample_frame_shape)
    as (w1 & fitted & image & Hcap & Hnorm & Himage & _ & Hwritten & _).
  rewrite Hcap. cbn [snd].
  vm_compute in Hnorm. injection Hnorm as <-.
  cbn in Himage. subst image.
  apply (Hwritten true). reflexivity.
Defined.

(** ** The effects of the pending captures *)

Lemma py_in_In x l : py_in x l = true → In x l.
Proof.
  unfold py_in. intros H. apply existsb_exists in H as (y & Hy & Heq).
  apply String.eqb_eq in Heq. by subst.
Qed.

Lemma do_call_effects_valid E c w :
  effects_valid (self w) → effects_valid (self (snd (do_call E c w))).
Proof.
  intros Hvalid. destruct c as [filename effect|capture_path]; simpl.
  - pose proof (capture_captures filename effect w) as Hc.
    destruct (capture filename effect w) as [[[]| |] w'] eqn:Hrun; simpl;
      try (intros key image eff; rewrite Hc; apply Hvalid).
    destruct Hc as (image & w1 & _ & Hcap).
    assert (Hin : py_in (lower (py_str effect)) IMAGE_EFFECTS = true).
    { unfold capture in Hrun.
      destruct (py_in (lower (py_str effect)) IMAGE_EFFECTS); [reflexivity|].
      discriminate Hrun. }
    intros key image' eff. rewrite Hcap.
    destruct (decide (filename = key)) as [->|Hne].
    + rewrite lookup_insert_eq. intros [= _ <-]. by apply py_in_In.
    + rewrite lookup_insert_ne by done. apply Hvalid.
  - unfold bind.
    pose proof (post_process_keeps_captures E capture_path w) as Hp.
    destruct (_post_process_capture E capture_path w) as [[image| |] w']; simpl in *;
      intros key image' eff; rewrite Hp; apply Hvalid.
Qed.

(** X2. Through every sequence of captures and post-processings, whether
    they return or raise, every pending capture carries an effect of
    [IMAGE_EFFECTS], if the pending captures did at the start; a camera
    just constructed has none. *)
Theorem pending_effects_stay_valid E cs w :
  effects_valid (self w) → effects_valid (self (run_calls E cs w)).
Proof.
  revert w. induction cs as [|c cs IH]; intros w Hvalid; simpl; [exact Hvalid|].
  apply IH. by apply do_call_effects_valid.
Qed.

Lemma new_camera_effects_valid device iso res rotation flip :
  effects_valid (CvCamera_init device iso res rotation flip).
Proof. intros key image effect. simpl. by rewrite lookup_empty. Qed.

Lemma pending_effects_stay_valid_witness :
  effects_valid
    (self (run_calls (sample_env quarter_clock)
             [Capture "a.jpg" (PyStr "SHARPEN"); Capture "b.jpg" (PyStr "sepia");
              PostProcess "a.jpg"; Capture "a.jpg" PyNone]
             (new_world (CvCamera_init (sample_device 3) 200 (4, 2) 0 false)))).
Proof.
  apply (pending_effects_stay_valid (sample_env quarter_clock)).
  apply new_camera_effects_valid.
Defined.

(** ** The device after [quit] *)

(** X3. After [quit] the device delivers nothing, whatever frames were
    still to come: [capture] with a valid effect raises IOError and
    stores nothing, the preview gets no image, and the frames of the
    device are left as they were. *)
Theorem no_frame_after_quit E w :
  (∀ filename effect,
     py_in (lower (py_str effect)) IMAGE_EFFECTS = true →
     fst (capture filename effect (snd (quit w))) = Raise IOError ∧
     _captures (self (snd (capture filename effect (snd (quit w))))) = _captures (self w) ∧
     feed (_cam (self (snd (capture filename effect (snd (quit w))))))
       = feed (_cam (self w))) ∧
  (is_Some (_window (self w)) →
     fst (_get_preview_image E (snd (quit w))) = Ret None ∧
     feed (_cam (self (snd (_get_preview_image E (snd (quit w)))))) = feed (_cam (self w))).
Proof.
  split.
  - intros filename effect Hin. unfold capture. rewrite Hin. auto.
  - intros [win Hwin]. unfold _get_preview_image. msimpl.
    rewrite (get_rect_eq (snd (quit w)) win Hwin). msimpl. auto.
Qed.

Lemma no_frame_after_quit_witness :
  fst (capture "a.jpg" PyNone (snd (quit (sample_world 2)))) = Raise IOError ∧
  fst (_get_preview_image (sample_env quarter_clock) (snd (quit (sample_world 2))))
    = Ret None.
Proof.
  destruct (no_frame_after_quit (sample_env quarter_clock) (sample_world 2))
    as [Hcap Hprev].
  split.
  - apply (Hcap "a.jpg" PyNone). reflexivity.
  - apply Hprev. simpl. eauto.
Defined.

(** ** The probe of the device *)

(** X12. [cv_camera_connected] answers True exactly when cv2 is there and
    the device opened; it never leaves the handle of its probe open and
    reads no frame from it. *)
Theorem probe_leaves_device_closed cv2 camera :
  (fst (cv_camera_connected cv2 camera) = true ↔ cv2 = true ∧ opened camera = true) ∧
  (∀ handle, snd (cv_camera_connected cv2 camera) = Some handle →
             opened handle = false ∧ feed handle = feed camera) ∧
  (snd (cv_camera_connected cv2 camera) = None ↔ cv2 = false).
Proof.
  unfold cv_camera_connected.
  destruct cv2, camera as [[] fd]; simpl; repeat split;
    try (intros [? ?]); try intros ?; simplify_eq; auto.
Qed.

Lemma probe_leaves_device_closed_witness :
  fst (cv_camera_connected true (sample_device 1)) = true ∧
  opened {| opened := false; feed := feed (sample_device 1) |} = false ∧
  feed {| opened := false; feed := feed (sample_device 1) |} = feed (sample_device 1).
Proof.
  destruct (probe_leaves_device_closed true (sample_device 1)) as (Hanswer & Hclosed & _).
  split.
  - apply Hanswer. split; reflexivity.
  - apply Hclosed. reflexivity.
Defined.

(** ** The timed phases without a preview *)

Lemma show_overlay_no_window E text alpha w :
  _window (self w) = None → _show_overlay E text alpha w = (Ret tt, w).
Proof. intros Hwin. unfold _show_overlay. msimpl. by rewrite Hwin. Qed.

Lemma show_smile_no_window E alpha w :
  _window (self w) = None → is_Some (LANGUAGES E !! "en") →
  show_smile E alpha w = (Raise AttributeError, w).
Proof.
  intros Hwin [en Hen]. unfold show_smile, smile_message. rewrite Hen.
  destruct (default en (LANGUAGES E !! language E) !! "smile_message");
    msimpl; rewrite (show_overlay_no_window E _ alpha w Hwin); by rewrite Hwin.
Qed.

Lemma show_frame_no_window E w :
  _window (self w) = None → show_frame E w = (Raise AttributeError, w).
Proof. intros Hwin. unfold show_frame. msimpl. by rewrite Hwin. Qed.

(** X4. Without a window bound by [preview] (a camera just constructed,
    or after [stop_preview]), [preview_countdown] and [preview_wait] with
    a duration of at least one second raise AttributeError, whatever the
    clock says; they read no frame, render no overlay and leave the
    camera as it was. *)
Theorem timed_phases_need_preview E fuel seconds alpha w :
  _window (self w) = None →
  (1 <= seconds)%Q →
  is_Some (LANGUAGES E !! "en") →
  (0 < fuel)%nat →
  ∃ w1 w2,
    preview_countdown E fuel seconds alpha w = (Raise AttributeError, w1) ∧
    preview_wait E fuel seconds alpha w = (Raise AttributeError, w2) ∧
    self w1 = self w ∧ trace w1 = trace w ∧
    self w2 = self w ∧ trace w2 = trace w.
Proof.
  intros Hwin Hsec Hen Hfuel.
  pose proof (py_int_ge_1 seconds Hsec) as HT.
  destruct fuel as [|fuel]; [lia|].
  unfold preview_countdown, preview_wait.
  destruct (Z.ltb_spec (py_int seconds) 1); [exfalso; lia|].
  unfold PoolingTimer_start, time_time. msimpl.
  cbn [countdown_loop wait_loop]. msimpl. rewrite !is_timeout_eq.
  destruct (Qle_bool _ _).
  - rewrite (show_smile_no_window E alpha (tick (tick w)) Hwin Hen).
    eexists _, _. repeat split; reflexivity.
  - rewrite remaining_eq. cbn [self tick].
    rewrite (show_frame_no_window E (tick (tick w)) Hwin).
    destruct (is_none (_overlay (self w)) || _).
    + rewrite (show_overlay_no_window E _ alpha (tick (tick (tick w))) Hwin).
      rewrite (show_frame_no_window E (tick (tick (tick w))) Hwin).
      eexists _, _. repeat split; reflexivity.
    + rewrite (show_frame_no_window E (tick (tick (tick w))) Hwin).
      eexists _, _. repeat split; reflexivity.
Qed.

Lemma timed_phases_need_preview_witness :
  ∃ w1 w2,
    preview_countdown (sample_env quarter_clock) 9 3 80 (snd (stop_preview (sample_world 9)))
      = (Raise AttributeError, w1) ∧
    preview_wait (sample_env quarter_clock) 9 3 80 (snd (stop_preview (sample_world 9)))
      = (Raise AttributeError, w2) ∧
    self w1 = self (snd (stop_preview (sample_world 9))) ∧
    trace w1 = trace (snd (stop_preview (sample_world 9))) ∧
    self w2 = self (snd (stop_preview (sample_world 9))) ∧
    trace w2 = trace (snd (stop_preview (sample_world 9))).
Proof.
  apply (timed_phases_need_preview (sample_env quarter_clock) 9 3 80
           (snd (stop_preview (sample_world 9)))).
  - reflexivity.
  - discriminate.
  - simpl. unfold sample_languages. rewrite lookup_insert_eq. eauto.
  - lia.
Defined.

(** ** The wait *)

(** The loop of [preview_wait] from turn [i] on, when the timer times
    out [k] turns later. *)
Lemma wait_loop_turns E win t0 T k :
  well_behaved E →
  ∀ i w fuel,
    ready E win w →
    ticks w = (t0 + i + 1)%nat →
    Qle_bool (inject_Z T) (clock E (t0 + (i + k) + 1) - clock E t0) = true →
    (∀ m, (i ≤ m < i + k)%nat →
          Qle_bool (inject_Z T) (clock E (t0 + m + 1) - clock E t0) = false) →
    (k < fuel)%nat →
    ∃ w' new,
      wait_loop E fuel {| pt_timeout := T; pt_time := clock E t0 |} w = (Ret tt, w') ∧
      ready E win w' ∧
      ticks w' = (t0 + (i + k) + 2)%nat ∧
      _overlay (self w') = _overlay (self w) ∧
      trace w' = (trace w ++ new)%list ∧
      ∀ rest, renders_before [] (new ++ rest)
              = (repeat [] k ++ renders_before [] rest)%list.
Proof.
  intros HE. induction k as [|k IH]; intros i w fuel Hready Hticks Hout Hin Hfuel.
  - destruct fuel as [|fuel]; [lia|]. cbn [wait_loop]. msimpl.
    rewrite is_timeout_eq. cbn [pt_timeout pt_time]. rewrite Hticks.
    replace (i + 0)%nat with i in Hout by lia. rewrite Hout.
    exists (tick w), []. split; [reflexivity|]. split; [by apply ready_tick|].
    split; [simpl; lia|]. split; [reflexivity|]. split; [by rewrite app_nil_r|].
    reflexivity.
  - destruct fuel as [|fuel]; [lia|]. cbn [wait_loop]. msimpl.
    rewrite is_timeout_eq. cbn [pt_timeout pt_time]. rewrite Hticks.
    rewrite (Hin i) by lia.
    destruct (show_frame_ready E win (tick w) HE ltac:(by apply ready_tick))
      as (w2 & ev & -> & Hready2 & Hticks2 & Hov2 & Htrace2 & Hev).
    destruct (IH (S i) w2 fuel Hready2) as
      (w' & new & Hloop & Hready' & Hticks' & Hov' & Htrace' & Hnew).
    + rewrite Hticks2. simpl. lia.
    + replace (S i + k)%nat with (i + S k)%nat by lia. exact Hout.
    + intros m Hm. apply Hin. lia.
    + lia.
    + exists w', (ev ++ new)%list. split; [exact Hloop|].
      split; [exact Hready'|]. split; [rewrite Hticks'; lia|].
      split; [by rewrite Hov', Hov2|].
      split; [rewrite Htrace', Htrace2, <- app_assoc; reflexivity|].
      intros rest. rewrite <- app_assoc, Hev, Hnew. reflexivity.
Qed.

(** X5. Assume collaborators that keep their contracts ([well_behaved]:
    the outer fit covers its target, cv2.resize and build_overlay return
    the sizes asked for, LANGUAGES has an 'en' table) and a preview that
    is ready ([ready]: a window is bound, viewport and resolution are
    positive, the viewport is the outer fit of the resolution into
    itself, the device delivers non-empty frames or failed reads, a
    cached overlay and its mask have the size of the viewport). Then with
    a duration of at least one second, a clock on which the timer first
    reports the timeout at the test of turn n and a budget of more than n
    turns, [preview_wait] returns: it shows one frame per turn and
    renders no overlay before any of them, reads the clock once per turn,
    then renders the smile message and shows one last frame, the last
    thing it does. The clock reading that ended the loop is at least the
    duration after the start of the timer. *)
Theorem wait_renders_only_smile E win seconds alpha w n fuel :
  well_behaved E → ready E win w →
  (1 <= seconds)%Q →
  wait_times_out_at E (ticks w) (py_int seconds) n →
  (n < fuel)%nat →
  ∃ w' new text,
    preview_wait E fuel seconds alpha w = (Ret tt, w') ∧
    trace w' = (trace w ++ new)%list ∧
    smile_message E = Ret text ∧
    renders_per_turn new = (repeat [] n ++ [[py_str text]])%list ∧
    (∃ image, last new = Some (EvShow image)) ∧
    ticks w' = (ticks w + n + 2)%nat ∧
    (inject_Z (py_int seconds) <= clock E (ticks w + n + 1) - clock E (ticks w))%Q.
Proof.
  intros HE Hready Hsec [Hout Hin] Hfuel.
  pose proof (py_int_ge_1 seconds Hsec) as HT.
  unfold preview_wait.
  destruct (Z.ltb_spec (py_int seconds) 1); [exfalso; lia|].
  unfold PoolingTimer_start, time_time. msimpl.
  destruct (wait_loop_turns E win (ticks w) (py_int seconds) n HE 0%nat (tick w) fuel)
    as (w1 & new1 & Hloop & Hready1 & Hticks1 & _ & Htrace1 & Hnew1);
    try assumption.
  { by apply ready_tick. }
  { simpl. lia. }
  { intros m Hm. apply Hin. lia. }
  rewrite Hloop.
  destruct (show_smile_ready E win w1 alpha HE Hready1)
    as (text & w' & new2 & Htext & Hsmile & Hticks' & Htrace' & Hnew2 & image & Hlast).
  rewrite Hsmile. exists w', (new1 ++ new2)%list, text.
  split; [reflexivity|].
  split; [rewrite Htrace', Htrace1; simpl; by rewrite <- app_assoc|].
  split; [exact Htext|].
  split; [unfold renders_per_turn; by rewrite Hnew1, Hnew2|].
  split.
  { exists image. rewrite last_app, Hlast. reflexivity. }
  split; [rewrite Hticks', Hticks1; lia|].
  by apply Qle_bool_iff.
Qed.

Lemma quarter_clock_wait_times_out : wait_times_out_at (sample_env quarter_clock) 0 1 3.
Proof.
  split; [reflexivity|].
  intros m Hm. do 3 (destruct m as [|m]; [reflexivity|]). lia.
Qed.

Lemma wait_renders_only_smile_witness :
  ∃ w' new text,
    preview_wait (sample_env quarter_clock) 4 1 80 (sample_world 4) = (Ret tt, w') ∧
    trace w' = (trace (sample_world 4) ++ new)%list ∧
    smile_message (sample_env quarter_clock) = Ret text ∧
    renders_per_turn new = (repeat [] 3 ++ [[py_str text]])%list ∧
    (∃ image, last new = Some (EvShow image)) ∧
    ticks w' = (ticks (sample_world 4) + 3 + 2)%nat ∧
    (inject_Z (py_int 1)
     <= quarter_clock (ticks (sample_world 4) + 3 + 1)
        - quarter_clock (ticks (sample_world 4)))%Q.
Proof.
  apply (wait_renders_only_smile (sample_env quarter_clock) sample_window 1 80
           (sample_world 4) 3 4).
  - apply sample_well_behaved.
  - apply sample_world_ready.
  - discriminate.
  - apply quarter_clock_wait_times_out.
  - lia.
Defined.

(** ** The overlay on the preview *)

Lemma np_inplace_rows_eq f w (a b : array2 pix3) :
  Forall (λ r, length r = w) a → Forall (λ r, length r = w) b →
  length a = length b →
  all_some (zip_with (λ ra rb, option_map (zip_with (pix_op f) ra)
                                          (broadcast (length ra) rb)) a b)
  = Some (zip_with (zip_with (pix_op f)) a b).
Proof.
  intros Ha. revert b. induction Ha as [|ra a Hra Ha IH]; intros b Hb Hlen.
  - by destruct b.
  - destruct b as [|rb b]; [discriminate Hlen|].
    inversion Hb as [|? ? Hrb Hb']; subst. injection Hlen as Hlen.
    cbn [zip_with all_some]. rewrite broadcast_same by congruence.
    cbn [option_map]. by rewrite (IH b Hb' Hlen).
Qed.

Lemma np_inplace_eq f h w (a b : array2 pix3) :
  has_shape h w a → has_shape h w b →
  np_inplace f a b = Ret (zip_with (zip_with (pix_op f)) a b) ∧
  has_shape h w (zip_with (zip_with (pix_op f)) a b).
Proof.
  intros Ha Hb.
  destruct (np_inplace_shape f h w a b Ha Hb) as (c & Hc & Hshape).
  destruct Ha as [Hah Haw], Hb as [Hbh Hbw].
  unfold np_inplace, nrows in *. rewrite broadcast_same in * by congruence.
  rewrite (np_inplace_rows_eq f w a b Haw Hbw ltac:(congruence)) in *.
  injection Hc as <-. split; [reflexivity|exact Hshape].
Qed.

Lemma pixel_at_zip_with {A B C} (g : A → B → C) (a : array2 A) (b : array2 B) y x :
  pixel_at (zip_with (zip_with g) a b) y x
  = pixel_at a y x ≫= λ p, pixel_at b y x ≫= λ q, Some (g p q).
Proof.
  unfold pixel_at. rewrite lookup_zip_with.
  destruct (a !! y) as [ra|]; simpl; [|reflexivity].
  destruct (b !! y) as [rb|]; simpl.
  - rewrite lookup_zip_with. reflexivity.
  - by destruct (ra !! x).
Qed.

Lemma all_pixels_at {A} (f : A → bool) (a : array2 A) y x p :
  all_pixels f a = true → pixel_at a y x = Some p → f p = true.
Proof.
  unfold all_pixels, pixel_at. intros Hall Hp.
  destruct (a !! y) as [row|] eqn:Hrow; simpl in Hp; [|discriminate Hp].
  rewrite forallb_forall in Hall.
  pose proof (Hall row ltac:(apply list_elem_of_In; by eapply list_elem_of_lookup_2)) as Hr.
  rewrite forallb_forall in Hr. apply Hr.
  apply list_elem_of_In. by eapply list_elem_of_lookup_2.
Qed.

(** The image of the preview before the overlay is put on. *)
Lemma preview_finish_value E win s image :
  resizes_to_size E →
  0 < rect_width (win_rect win) → 0 < rect_height (win_rect win) →
  0 < fst (resolution s) → 0 < snd (resolution s) →
  new_size_keep_aspect_ratio E (resolution s)
    (rect_width (win_rect win), rect_height (win_rect win))
  = (rect_width (win_rect win), rect_height (win_rect win)) →
  overlay_fits win s →
  has_shape (Z.to_nat (snd (resolution s))) (Z.to_nat (fst (resolution s))) image →
  ∃ out,
    preview_finish E s (win_rect win) image = Ret (Some out) ∧
    has_shape (Z.to_nat (rect_height (win_rect win))) (Z.to_nat (rect_width (win_rect win)))
      out ∧
    out = match _overlay s, _overlay_mask s with
          | Some overlay, Some mask =>
              zip_with (zip_with (pix_op Z.add))
                (zip_with (zip_with (pix_op Z.mul))
                   (cv_resize E image (rect_width (win_rect win), rect_height (win_rect win)))
                   mask)
                overlay
          | _, _ =>
              cv_resize E image (rect_width (win_rect win), rect_height (win_rect win))
          end.
Proof.
  intros Hres Hrw Hrh HRw HRh Hview Hov Himg.
  unfold preview_finish.
  destruct (resolution s) as [Rw Rh]. cbn [fst snd] in *.
  assert (Hne : is_empty image = false).
  { apply (has_shape_not_empty (Z.to_nat Rh) (Z.to_nat Rw)); [lia|lia|exact Himg]. }
  rewrite (has_shape_shape (Z.to_nat Rh) (Z.to_nat Rw) image ltac:(lia) Himg).
  rewrite !Z2Nat.id by lia. rewrite Hview.
  unfold resize. rewrite Hne. cbn [orb fst snd].
  destruct (Z.leb_spec (rect_width (win_rect win)) 0); [exfalso; lia|].
  destruct (Z.leb_spec (rect_height (win_rect win)) 0); [exfalso; lia|].
  cbn [orb].
  pose proof (Hres image _ _ Hne Hrw Hrh) as Hsized.
  unfold overlay_fits in Hov.
  destruct (_overlay s) as [overlay|]; [|eauto].
  destruct Hov as (Hoverlay & mask & -> & Hmask).
  destruct (np_inplace_eq Z.mul _ _ _ mask Hsized Hmask) as [-> Hmasked].
  destruct (np_inplace_eq Z.add _ _ _ overlay Hmasked Hoverlay) as [-> Hout].
  eauto.
Qed.

(** X6. Assume that the outer fit covers its target, that cv2.resize
    returns the size asked for and that the preview is ready ([ready]: a
    window is bound, viewport and resolution are positive, the viewport
    is the outer fit of the resolution into itself, the device delivers
    non-empty frames or failed reads, and a cached overlay and its mask,
    if any, have the size of the viewport). Then [_get_preview_image]
    returns: no image exactly when the read of the device fails, and
    otherwise an image of exactly the size of the viewport, with or
    without an overlay on it. The read of the device is all it changes. *)
Theorem preview_frame_fills_viewport E win w :
  covers_target E → resizes_to_size E → ready E win w →
  ∃ r,
    _get_preview_image E w = (Ret r, snd (cam_read w)) ∧
    (r = None ↔ fst (cam_read w) = Ret None) ∧
    ∀ image, r = Some image →
      has_shape (Z.to_nat (rect_height (win_rect win))) (Z.to_nat (rect_width (win_rect win)))
        image.
Proof.
  intros Hfit Hres Hready.
  pose proof Hready as [Hwin [Hrw Hrh] [HRw HRh] Hview Hframes Hov].
  destruct (cam_read w) as [r0 w1] eqn:Hread.
  destruct (_cam (self w)) as [o fd] eqn:Hcam.
  assert (Hr : r0 = Ret None ∨
               ∃ frame rest, o = true ∧ fd = Some frame :: rest).
  { unfold cam_read in Hread. rewrite Hcam in Hread. cbn [opened feed] in Hread.
    destruct o, fd as [|[frame|] rest]; injection Hread as <- <-; eauto. }
  destruct Hr as [Hr|Hr].
  { subst r0. exists None.
    destruct (get_preview_image_none E win w w1 Hready Hread) as [Hprev _].
    split; [exact Hprev|]. split; [done|]. intros image Himage. discriminate Himage. }
  destruct Hr as (frame & rest & Ho & Hfd). subst o fd.
  rewrite (cam_read_frame w frame rest Hcam) in Hread.
  injection Hread as <- <-.
  cbn [feed] in Hframes. inversion Hframes as [|? ? Hok Hrest]; subst.
  destruct Hok as (H & W & HH & HW & Hframe).
  destruct (resolution (self w)) as [Rw Rh] eqn:Hresolution. cbn [fst snd] in *.
  destruct (normalized_shape E Rw Rh H W frame Hfit Hres HH HW Hframe HRw HRh)
    as (fitted & Hnorm & Hfitted).
  rewrite <- Hresolution in Hnorm.
  rewrite (get_preview_image_eq E w win frame rest fitted Hwin Hcam Hnorm).
  destruct (preview_finish_value E win (self w)
              (if _preview_hflip (self w) then cv_flip fitted 1 else fitted))
    as (out & Hout & Hshape & _); try assumption; rewrite ?Hresolution; try assumption.
  { cbn [fst snd]. destruct (_preview_hflip (self w)); [|exact Hfitted].
    by apply flip_horizontal_shape. }
  rewrite Hout. exists (Some out). split; [reflexivity|].
  split; [split; intros Hx; discriminate Hx|].
  intros image [= <-]. exact Hshape.
Qed.

Lemma preview_frame_fills_viewport_witness :
  ∃ r,
    _get_preview_image (sample_env quarter_clock) (sample_world 1)
      = (Ret r, snd (cam_read (sample_world 1))) ∧
    (r = None ↔ fst (cam_read (sample_world 1)) = Ret None) ∧
    ∀ image, r = Some image →
      has_shape (Z.to_nat (rect_height (win_rect sample_window)))
        (Z.to_nat (rect_width (win_rect sample_window))) image.
Proof.
  apply (preview_frame_fills_viewport (sample_env quarter_clock) sample_window
           (sample_world 1)).
  - apply sample_fit_outer_covers.
  - apply sample_resize_shape.
  - apply sample_world_ready.
Defined.

Lemma uint8_range v : uint8 v = true → 0 ≤ v < 256.
Proof. unfold uint8. intros H. apply andb_true_iff in H as [H1 H2]. lia. Qed.

(** A pixel of the frame under the mask and the overlay. *)
Lemma composite_pixel (p : pix3) (q : pix4) :
  uint8_pix3 p = true → uint8_pix4 q = true →
  pix_op Z.add
    (pix_op Z.mul p (let v := if 10 <? RGBA2GRAY q then 0 else 1 in (v, v, v)))
    (RGBA2RGB q)
  = (if 10 <? RGBA2GRAY q then RGBA2RGB q else pix_op Z.add p (RGBA2RGB q)).
Proof.
  destruct p as [[a b] c], q as [[[r g] b'] al]. unfold uint8_pix3, uint8_pix4.
  intros Hp Hq.
  apply andb_true_iff in Hp as [Hp Hc]. apply andb_true_iff in Hp as [Ha Hb].
  apply andb_true_iff in Hq as [Hq _]. apply andb_true_iff in Hq as [Hq Hb'].
  apply andb_true_iff in Hq as [Hr Hg].
  apply uint8_range in Ha, Hb, Hc, Hr, Hg, Hb'.
  cbn [RGBA2RGB]. destruct (10 <? RGBA2GRAY (r, g, b', al)); cbn [pix_op].
  - rewrite !Z.mul_0_r, !Zmod_0_l, !Z.add_0_l, !Z.mod_small by lia. reflexivity.
  - rewrite !Z.mul_1_r. rewrite (Z.mod_small a), (Z.mod_small b), (Z.mod_small c) by lia.
    reflexivity.
Qed.

(** X7. A frame previewed after [_show_overlay] carries the overlay by
    selection, not by blending: for 8-bit images, where the grey level of
    the rendered layer is above 10 the pixel shown is the layer's colour
    alone (its alpha plays no part), elsewhere it is the live pixel plus
    the layer's colour modulo 256, and so the live pixel itself wherever
    the layer is black. *)
Theorem preview_selects_overlay E win w text alpha frame rest :
  well_behaved E → ready E win w →
  _cam (self w) = {| opened := true; feed := Some frame :: rest |} →
  ∃ w1 fitted out w2,
    _show_overlay E text alpha w = (Ret tt, w1) ∧
    normalized E (resolution (self w)) frame = Ret fitted ∧
    _get_preview_image E w1 = (Ret (Some out), w2) ∧
    ∀ live layer,
      live = cv_resize E (if _preview_hflip (self w) then cv_flip fitted 1 else fitted)
               (rect_width (win_rect win), rect_height (win_rect win)) →
      layer = rendered E win text alpha →
      all_pixels uint8_pix3 live = true →
      all_pixels uint8_pix4 layer = true →
      ∀ y x p q,
        pixel_at live y x = Some p → pixel_at layer y x = Some q →
        pixel_at out y x
          = Some (if 10 <? RGBA2GRAY q then RGBA2RGB q else pix_op Z.add p (RGBA2RGB q)) ∧
        (RGBA2RGB q = (0, 0, 0) → pixel_at out y x = Some p).
Proof.
  intros HE Hready Hcam.
  pose proof HE as (Hfit & Hres & Hrender & _).
  pose proof Hready as [Hwin [Hrw Hrh] [HRw HRh] Hview Hframes _].
  pose proof (Hrender _ _ (py_str text) alpha Hrw Hrh) as Hlayer.
  fold (rendered E win text alpha) in Hlayer.
  destruct (show_overlay_ready E win w text alpha HE Hready)
    as (w1 & Hshow & Hready1 & _).
  pose proof Hshow as Hshow'.
  rewrite (show_overlay_eq E w win text alpha
             (Z.to_nat (rect_height (win_rect win))) (Z.to_nat (rect_width (win_rect win)))
             Hwin ltac:(lia) ltac:(lia) Hlayer) in Hshow'.
  injection Hshow' as Hw1.
  rewrite Hcam in Hframes. cbn [feed] in Hframes.
  inversion Hframes as [|? ? Hok _]; subst.
  destruct Hok as (H & W & HH & HW & Hframe).
  destruct (resolution (self w)) as [Rw Rh] eqn:Hresolution. cbn [fst snd] in *.
  destruct (normalized_shape E Rw Rh H W frame Hfit Hres HH HW Hframe HRw HRh)
    as (fitted & Hnorm & Hfitted).
  set (w1 := on_self _ _) in *.
  assert (Hcam1 : _cam (self w1) = {| opened := true; feed := Some frame :: rest |})
    by exact Hcam.
  assert (Hres1 : resolution (self w1) = (Rw, Rh)) by exact Hresolution.
  assert (Hnorm1 : normalized E (resolution (self w1)) frame = Ret fitted)
    by (by rewrite Hres1).
  pose proof (get_preview_image_eq E w1 win frame rest fitted
                (ready_window E win w1 Hready1) Hcam1 Hnorm1) as Hprev.
  destruct (preview_finish_value E win (self w1)
              (if _preview_hflip (self w1) then cv_flip fitted 1 else fitted))
    as (out & Hout & _ & Hvalue); try assumption; rewrite ?Hres1; try assumption;
    try exact (ready_overlay E win w1 Hready1).
  { cbn [fst snd]. destruct (_preview_hflip (self w1)); [|exact Hfitted].
    by apply flip_horizontal_shape. }
  rewrite Hout in Hprev.
  exists w1, fitted, out. eexists.
  split; [exact Hshow|]. split; [exact Hnorm|]. split; [exact Hprev|].
  intros live layer -> -> Hlive Hbits y x p q Hp Hq.
  assert (Hpixel : pixel_at out y x
                   = Some (if 10 <? RGBA2GRAY q then RGBA2RGB q
                           else pix_op Z.add p (RGBA2RGB q))).
  { rewrite Hvalue. subst w1. cbn [self on_self _overlay _overlay_mask set_overlay
                                     set_overlay_mask _preview_hflip emit].
    rewrite !pixel_at_zip_with. rewrite Hp. cbn [mbind option_bind].
    unfold mask_of_overlay. rewrite !pixel_at_map, Hq. cbn [fmap option_fmap option_map
                                                              mbind option_bind].
    f_equal. apply composite_pixel.
    - exact (all_pixels_at _ _ y x p Hlive Hp).
    - exact (all_pixels_at _ _ y x q Hbits Hq). }
  split; [exact Hpixel|].
  intros Hblack. rewrite Hpixel.
  destruct q as [[[r g] b] al]. cbn [RGBA2RGB] in *. injection Hblack as -> -> ->.
  cbn [RGBA2GRAY]. change (10 <? gray_of_rgb 0 0 0) with false. cbn iota.
  pose proof (all_pixels_at _ _ y x p Hlive Hp) as Hu.
  destruct p as [[a b] c]. unfold uint8_pix3 in Hu.
  apply andb_true_iff in Hu as [Hu Hc]. apply andb_true_iff in Hu as [Ha Hb].
  apply uint8_range in Ha, Hb, Hc.
  cbn [pix_op]. rewrite !Z.add_0_r, !Z.mod_small by lia. reflexivity.
Qed.

Lemma preview_selects_overlay_witness :
  ∃ w1 fitted out w2,
    _show_overlay (sample_env quarter_clock) (PyStr "3") 80 (sample_world 1) = (Ret tt, w1) ∧
    normalized (sample_env quarter_clock) (resolution (self (sample_world 1))) sample_frame
      = Ret fitted ∧
    _get_preview_image (sample_env quarter_clock) w1 = (Ret (Some out), w2) ∧
    ∀ y x p q,
      pixel_at (sample_resize
                  (if _preview_hflip (self (sample_world 1)) then cv_flip fitted 1 else fitted)
                  (4, 2)) y x = Some p →
      pixel_at (sample_overlay (4, 2) "3" 80) y x = Some q →
      pixel_at out y x
        = Some (if 10 <? RGBA2GRAY q then RGBA2RGB q else pix_op Z.add p (RGBA2RGB q)) ∧
      (RGBA2RGB q = (0, 0, 0) → pixel_at out y x = Some p).
Proof.
  destruct (preview_selects_overlay (sample_env quarter_clock) sample_window (sample_world 1)
              (PyStr "3") 80 sample_frame [] (sample_well_behaved quarter_clock)
              (sample_world_ready quarter_clock 1) eq_refl)
    as (w1 & fitted & out & w2 & Hshow & Hnorm & Hprev & Hpix).
  exists w1, fitted, out, w2.
  split; [exact Hshow|]. split; [exact Hnorm|]. split; [exact Hprev|].
  apply (Hpix _ _ eq_refl eq_refl).
  - vm_compute in Hnorm. injection Hnorm as <-. reflexivity.
  - reflexivity.
Defined.

(** ** What [_show_overlay] stores *)

(** X8. [_show_overlay] does nothing without a window. With one, it
    stores as overlay the colours of the rendered layer, pixel by pixel
    and without the alpha channel, and touches neither the device, the
    pending captures nor the window. On an empty layer it raises the
    error of cv2 and the overlay and mask cached before stay as they
    were. *)
Theorem show_overlay_stores_colours E w text alpha :
  (_window (self w) = None → _show_overlay E text alpha w = (Ret tt, w)) ∧
  (∀ win h wd,
     _window (self w) = Some win → (0 < h)%nat → (0 < wd)%nat →
     has_shape h wd (rendered E win text alpha) →
     ∃ w' overlay,
       _show_overlay E text alpha w = (Ret tt, w') ∧
       _overlay (self w') = Some overlay ∧
       has_shape h wd overlay ∧
       (∀ y x q, pixel_at (rendered E win text alpha) y x = Some q →
                 pixel_at overlay y x = Some (RGBA2RGB q)) ∧
       _captures (self w') = _captures (self w) ∧
       _cam (self w') = _cam (self w) ∧
       _window (self w') = _window (self w) ∧
       trace w' = (trace w ++ [EvRender (py_str text) alpha])%list) ∧
  (∀ win,
     _window (self w) = Some win →
     is_empty (rendered E win text alpha) = true →
     ∃ w', _show_overlay E text alpha w = (Raise CvError, w') ∧
           _overlay (self w') = _overlay (self w) ∧
           _overlay_mask (self w') = _overlay_mask (self w)).
Proof.
  split; [apply show_overlay_no_window|]. split.
  - intros win h wd Hwin Hh Hwd Hshape.
    rewrite (show_overlay_eq E w win text alpha h wd Hwin Hh Hwd Hshape).
    eexists _, _. split; [reflexivity|]. split; [reflexivity|].
    split; [by apply has_shape_map|].
    split; [|auto].
    intros y x q Hq. by rewrite pixel_at_map, Hq.
  - intros win Hwin Hempty. unfold _show_overlay. msimpl. rewrite Hwin. msimpl.
    rewrite (get_rect_eq w win Hwin). msimpl.
    fold (rendered E win text alpha). unfold cvtColor. rewrite Hempty.
    eexists. split; [reflexivity|]. auto.
Qed.

Lemma show_overlay_stores_colours_witness :
  ∃ w' overlay,
    _show_overlay (sample_env quarter_clock) (PyStr "3") 80 (sample_world 1) = (Ret tt, w') ∧
    _overlay (self w') = Some overlay ∧
    has_shape 2 4 overlay ∧
    (∀ y x q, pixel_at (rendered (sample_env quarter_clock) sample_window (PyStr "3") 80) y x
              = Some q →
              pixel_at overlay y x = Some (RGBA2RGB q)) ∧
    _captures (self w') = _captures (self (sample_world 1)) ∧
    _cam (self w') = _cam (self (sample_world 1)) ∧
    _window (self w') = _window (self (sample_world 1)) ∧
    trace w' = (trace (sample_world 1) ++ [EvRender (py_str (PyStr "3")) 80])%list.
Proof.
  destruct (show_overlay_stores_colours (sample_env quarter_clock) (sample_world 1)
              (PyStr "3") 80) as (_ & Hstore & _).
  apply (Hstore sample_window 2%nat 4%nat).
  - reflexivity.
  - lia.
  - lia.
  - apply (sample_overlay_shape (4, 2) "3" 80).
Defined.

(** ** The numbers of the countdown *)

Lemma py_int_mono (x y : Q) : (x <= y)%Q → py_int x ≤ py_int y.
Proof.
  unfold Qle, py_int. destruct x as [a b], y as [c d]. simpl. intros Hle.
  destruct (Z.le_gt_cases 0 a) as [Ha|Ha].
  - assert (Hc : 0 ≤ c) by nia.
    rewrite !Z.quot_div_nonneg by lia.
    apply Z.div_le_lower_bound; [lia|].
    pose proof (Z.mul_div_le a (Z.pos b) ltac:(lia)). nia.
  - destruct (Z.le_gt_cases 0 c) as [Hc|Hc].
    + pose proof (Z.quot_pos c (Z.pos d) Hc ltac:(lia)).
      pose proof (Z.quot_opp_l a (Z.pos b) ltac:(lia)) as Hopp.
      pose proof (Z.quot_pos (- a) (Z.pos b) ltac:(lia) ltac:(lia)). lia.
    + pose proof (Z.quot_opp_l a (Z.pos b) ltac:(lia)) as Ha'.
      pose proof (Z.quot_opp_l c (Z.pos d) ltac:(lia)) as Hc'.
      rewrite Z.quot_div_nonneg in Ha', Hc' by lia.
      assert (Hdiv : - c / Z.pos d ≤ - a / Z.pos b).
      { apply Z.div_le_lower_bound; [lia|].
        pose proof (Z.mul_div_le (- c) (Z.pos d) ltac:(lia)). nia. }
      lia.
Qed.

Lemma py_int_inject_Z_succ (z : Z) : py_int (inject_Z z + 1) = z + 1.
Proof. unfold py_int. simpl. rewrite Z.quot_1_r. lia. Qed.

Section Numbers.

Variables (E : Env) (t0 : nat) (T : Z) (fresh : bool).
Hypothesis Hclock : clock_monotone E.

Lemma shown_second_mono i j :
  (i ≤ j)%nat → shown_second E t0 T j ≤ shown_second E t0 T i.
Proof.
  intros Hij. unfold shown_second. apply py_int_mono.
  pose proof (Hclock (t0 + 2 * i + 2)%nat (t0 + 2 * j + 2)%nat ltac:(lia)). lra.
Qed.

Lemma shown_second_bound i : shown_second E t0 T i ≤ T + 1.
Proof.
  rewrite <- py_int_inject_Z_succ. unfold shown_second. apply py_int_mono.
  pose proof (Hclock t0 (t0 + 2 * i + 2)%nat ltac:(lia)). lra.
Qed.

(** The numbers rendered from turn [s] on, [s] not the first turn, are
    below the number of turn [s - 1] and go down. *)
Lemma later_numbers_decrease n s :
  Forall (λ d, d < shown_second E t0 T s)
    (flat_map (λ i, if rerenders E t0 T fresh i then [shown_second E t0 T i] else [])
              (seq (S s) n)) ∧
  StronglySorted Z.gt
    (flat_map (λ i, if rerenders E t0 T fresh i then [shown_second E t0 T i] else [])
              (seq (S s) n)).
Proof.
  revert s. induction n as [|n IH]; intros s; [split; constructor|].
  destruct (IH (S s)) as [Hbelow Hsorted].
  pose proof (shown_second_mono s (S s) ltac:(lia)) as Hstep.
  cbn [seq flat_map]. cbn [rerenders].
  destruct (Z.eqb_spec (shown_second E t0 T (S s)) (shown_second E t0 T s)) as [Heq|Hne];
    cbn [negb app].
  - rewrite <- Heq. split; [exact Hbelow|exact Hsorted].
  - split.
    + constructor; [lia|]. eapply Forall_impl; [exact Hbelow|]. intros d Hd. simpl in *. lia.
    + constructor; [exact Hsorted|].
      eapply Forall_impl; [exact Hbelow|]. intros d Hd. simpl in *. lia.
Qed.

Lemma rendered_numbers_decrease n :
  StronglySorted Z.gt (rendered_numbers E t0 T fresh n) ∧
  Forall (λ d, d ≤ T + 1) (rendered_numbers E t0 T fresh n).
Proof.
  unfold rendered_numbers. destruct n as [|n]; [split; constructor|].
  destruct (later_numbers_decrease n 0) as [Hbelow Hsorted].
  pose proof (shown_second_bound 0) as Hfirst.
  cbn [seq flat_map].
  assert (Hall : Forall (λ d, d ≤ T + 1)
                   (flat_map (λ i, if rerenders E t0 T fresh i
                                   then [shown_second E t0 T i] else [])
                             (seq 1 n))).
  { eapply Forall_impl; [exact Hbelow|]. intros d Hd. simpl in *. lia. }
  destruct (rerenders E t0 T fresh 0); cbn [app].
  - split; [|by constructor].
    constructor; [exact Hsorted|].
    eapply Forall_impl; [exact Hbelow|]. intros d Hd. simpl in *. lia.
  - split; assumption.
Qed.

Lemma concat_turn_renders l :
  concat (map (turn_renders E t0 T fresh) l)
  = map str_of_Z
      (flat_map (λ i, if rerenders E t0 T fresh i then [shown_second E t0 T i] else []) l).
Proof.
  induction l as [|i l IH]; [reflexivity|].
  cbn [map concat flat_map]. rewrite IH, map_app. f_equal.
  unfold turn_renders. by destruct (rerenders E t0 T fresh i).
Qed.

End Numbers.

(** The countdown as a whole, for the properties of its texts. *)
Lemma countdown_run E win seconds alpha w n fuel :
  well_behaved E → ready E win w →
  (1 <= seconds)%Q →
  times_out_at E (ticks w) (py_int seconds) n →
  (n < fuel)%nat →
  ∃ w' new text,
    preview_countdown E fuel seconds alpha w = (Ret tt, w') ∧
    trace w' = (trace w ++ new)%list ∧
    smile_message E = Ret text ∧
    renders_per_turn new
      = (map (turn_renders E (ticks w) (py_int seconds) (is_none (_overlay (self w))))
             (seq 0 n) ++ [[py_str text]])%list.
Proof.
  intros HE Hready Hsec [Hout Hin] Hfuel.
  pose proof (py_int_ge_1 seconds Hsec) as HT.
  unfold preview_countdown.
  destruct (Z.ltb_spec (py_int seconds) 1); [exfalso; lia|].
  unfold PoolingTimer_start, time_time. msimpl.
  destruct (countdown_loop_turns E win alpha (ticks w) (py_int seconds)
              (is_none (_overlay (self w))) n HE 0%nat (tick w) (py_int seconds) fuel)
    as (w1 & new1 & Hloop & Hready1 & Hticks1 & Htrace1 & Hnew1);
    try reflexivity; try assumption.
  { by apply ready_tick. }
  { simpl. lia. }
  { intros m Hm. apply Hin. lia. }
  rewrite Hloop.
  destruct (show_smile_ready E win w1 alpha HE Hready1)
    as (text & w' & new2 & Htext & Hsmile & _ & Htrace' & Hnew2 & _).
  rewrite Hsmile. exists w', (new1 ++ new2)%list, text.
  split; [reflexivity|].
  split; [rewrite Htrace', Htrace1; simpl; by rewrite <- app_assoc|].
  split; [exact Htext|].
  unfold renders_per_turn. by rewrite Hnew1, Hnew2.
Qed.

(** X9. Assume collaborators that keep their contracts ([well_behaved]),
    a preview that is ready ([ready], as for X5), a duration of at least
    one second, a clock on which the timer first reports the timeout at
    the test of turn n, a budget of more than n turns, and a clock that
    does not run backwards. Then the countdown returns and the texts it
    renders are, in order, numbers that go strictly down, none above the
    truncated duration plus one, and then the smile message: it never
    shows a number twice in a row and never counts up. *)
Theorem countdown_numbers_go_down E win seconds alpha w n fuel :
  well_behaved E → ready E win w →
  clock_monotone E →
  (1 <= seconds)%Q →
  times_out_at E (ticks w) (py_int seconds) n →
  (n < fuel)%nat →
  ∃ w' new text,
    preview_countdown E fuel seconds alpha w = (Ret tt, w') ∧
    trace w' = (trace w ++ new)%list ∧
    smile_message E = Ret text ∧
    concat (renders_per_turn new)
      = (map str_of_Z (rendered_numbers E (ticks w) (py_int seconds)
                         (is_none (_overlay (self w))) n)
         ++ [py_str text])%list ∧
    StronglySorted Z.gt
      (rendered_numbers E (ticks w) (py_int seconds) (is_none (_overlay (self w))) n) ∧
    Forall (λ d, d ≤ py_int seconds + 1)
      (rendered_numbers E (ticks w) (py_int seconds) (is_none (_overlay (self w))) n).
Proof.
  intros HE Hready Hclock Hsec Hout Hfuel.
  destruct (countdown_run E win seconds alpha w n fuel HE Hready Hsec Hout Hfuel)
    as (w' & new & text & Hrun & Htrace & Htext & Hrenders).
  exists w', new, text.
  split; [exact Hrun|]. split; [exact Htrace|]. split; [exact Htext|].
  split.
  { rewrite Hrenders, concat_app, concat_turn_renders. simpl. reflexivity. }
  apply rendered_numbers_decrease. exact Hclock.
Qed.

Lemma quarter_clock_monotone : clock_monotone (sample_env quarter_clock).
Proof.
  intros i j Hij. simpl. unfold quarter_clock, Qle. simpl. lia.
Qed.

Lemma countdown_numbers_go_down_witness :
  ∃ w' new text,
    preview_countdown (sample_env quarter_clock) 7 3 80 (sample_world 7) = (Ret tt, w') ∧
    trace w' = (trace (sample_world 7) ++ new)%list ∧
    smile_message (sample_env quarter_clock) = Ret text ∧
    concat (renders_per_turn new)
      = (map str_of_Z (rendered_numbers (sample_env quarter_clock) (ticks (sample_world 7))
                         (py_int 3) (is_none (_overlay (self (sample_world 7)))) 6)
         ++ [py_str text])%list ∧
    StronglySorted Z.gt
      (rendered_numbers (sample_env quarter_clock) (ticks (sample_world 7)) (py_int 3)
         (is_none (_overlay (self (sample_world 7)))) 6) ∧
    Forall (λ d, d ≤ py_int 3 + 1)
      (rendered_numbers (sample_env quarter_clock) (ticks (sample_world 7)) (py_int 3)
         (is_none (_overlay (self (sample_world 7)))) 6).
Proof.
  apply (countdown_numbers_go_down (sample_env quarter_clock) sample_window 3 80
           (sample_world 7) 6 7).
  - apply sample_well_behaved.
  - apply sample_world_ready.
  - apply quarter_clock_monotone.
  - discriminate.
  - apply quarter_clock_times_out.
  - lia.
Defined.

(** ** What [preview] leaves alone *)

Lemma set_cam_same s : set_cam (_cam s) s = s.
Proof. by destruct s. Qed.

Lemma cam_read_self w :
  ∃ v, self (snd (cam_read w)) = set_cam v (self w) ∧
       files (snd (cam_read w)) = files w.
Proof.
  unfold cam_read.
  destruct (opened (_cam (self w))), (feed (_cam (self w))) as [|o rest]; simpl;
    eauto using eq_sym, set_cam_same.
Qed.

Lemma get_preview_image_self E w :
  ∃ v, self (snd (_get_preview_image E w)) = set_cam v (self w) ∧
       files (snd (_get_preview_image E w)) = files w.
Proof.
  assert (Hsame : ∃ v, self w = set_cam v (self w) ∧ files w = files w)
    by eauto using eq_sym, set_cam_same.
  unfold _get_preview_image. msimpl.
  destruct (_window (self w)) as [win|] eqn:Hwin.
  2: { unfold get_rect. msimpl. rewrite Hwin. exact Hsame. }
  rewrite (get_rect_eq w win Hwin). msimpl.
  destruct (cam_read_self w) as (v & Hv & Hf).
  destruct (cam_read w) as [[[image|]| |] w1]; simpl in Hv, Hf; try (simpl; eauto; fail).
  destruct (cvtColor BGR2RGB image) as [rgb| |]; try (simpl; eauto; fail).
  destruct (_fit_to_resolution E (resolution (self w1)) rgb) as [fitted| |];
    try (simpl; eauto; fail).
  destruct (shape (if _preview_hflip (self w1) then cv_flip fitted 1 else fitted))
    as [height width].
  destruct (resize E _ _) as [resized| |]; try (simpl; eauto; fail).
  destruct (_overlay (self w1)) as [overlay|]; [|simpl; eauto].
  destruct (_overlay_mask (self w1)) as [mask|]; [|simpl; eauto].
  destruct (np_inplace Z.mul resized mask) as [masked| |]; try (simpl; eauto; fail).
  destruct (np_inplace Z.add masked overlay); simpl; eauto.
Qed.

Lemma post_process_result E capture_path w1 w2 :
  _captures (self w1) = _captures (self w2) →
  resolution (self w1) = resolution (self w2) →
  _capture_hflip (self w1) = _capture_hflip (self w2) →
  fst (_post_process_capture E capture_path w1)
  = fst (_post_process_capture E capture_path w2).
Proof.
  intros Hc Hr Hf. unfold _post_process_capture. msimpl. rewrite Hc, Hr, Hf.
  destruct (_captures (self w2) !! capture_path) as [[image effect]|]; [|reflexivity].
  msimpl. destruct (cvtColor BGR2RGB image) as [rgb| |]; try reflexivity.
  destruct (_fit_to_resolution E (resolution (self w2)) rgb); try reflexivity.
  unfold imwrite. by destruct (cv_imwrite E _ _) as [[]|].
Qed.

(** X10. Whatever [preview] does with its first frame, also when it
    raises, the window and the flip given to it are bound afterwards,
    and it has touched neither the pending captures, the flip and the
    resolution of the captures, nor the files: the post-processing of any
    path returns after it what it returned before, for both values of the
    preview flip. *)
Theorem preview_leaves_captures_alone E window flip w :
  _window (self (snd (preview E window flip w))) = Some window ∧
  _preview_hflip (self (snd (preview E window flip w))) = flip ∧
  _captures (self (snd (preview E window flip w))) = _captures (self w) ∧
  _capture_hflip (self (snd (preview E window flip w))) = _capture_hflip (self w) ∧
  resolution (self (snd (preview E window flip w))) = resolution (self w) ∧
  files (snd (preview E window flip w)) = files w ∧
  ∀ capture_path,
    fst (_post_process_capture E capture_path (snd (preview E window flip w)))
    = fst (_post_process_capture E capture_path w).
Proof.
  set (w0 := on_self (set_preview_hflip flip) (on_self (set_window (Some window)) w)).
  assert (Hself : ∃ v, self (snd (preview E window flip w)) = set_cam v (self w0) ∧
                       files (snd (preview E window flip w)) = files w).
  { unfold preview. msimpl. fold w0.
    destruct (get_preview_image_self E w0) as (v & Hv & Hf).
    destruct (_get_preview_image E w0) as [[image| |] w1]; simpl in Hv, Hf;
      try (simpl; eauto; fail).
    unfold show_image. msimpl. rewrite Hv. simpl. eauto. }
  destruct Hself as (v & Hv & Hf).
  repeat split; try (rewrite Hv; reflexivity); try exact Hf.
  intros capture_path. apply post_process_result; rewrite Hv; reflexivity.
Qed.

(** ** The case of the effect *)

Lemma lower_ascii_idem c : lower_ascii (lower_ascii c) = lower_ascii c.
Proof. destruct c as [[] [] [] [] [] [] [] []]; reflexivity. Qed.

Lemma lower_idem s : lower (lower s) = lower s.
Proof. induction s as [|c s IH]; simpl; [reflexivity|]. by rewrite lower_ascii_idem, IH. Qed.

(** X11. [capture] does not tell the cases of an effect name apart: a
    name and its lower-case form give the same outcome and the same
    world, and the effect stored is a fixed point of the lower-casing. *)
Theorem capture_ignores_case filename name w :
  capture filename (PyStr name) w = capture filename (PyStr (lower name)) w ∧
  ∀ image effect,
    fst (capture filename (PyStr name) w) = Ret tt →
    _captures (self (snd (capture filename (PyStr name) w))) !! filename
      = Some (image, effect) →
    lower effect = effect ∧ In effect IMAGE_EFFECTS.
Proof.
  split.
  - unfold capture. cbn [py_str]. by rewrite lower_idem.
  - intros image effect Hret Hentry.
    pose proof (capture_captures filename (PyStr name) w) as Hc.
    destruct (capture filename (PyStr name) w) as [[[]| |] w'] eqn:Hrun;
      try discriminate Hret.
    destruct Hc as (image' & w1 & _ & Hcap). simpl in Hentry.
    rewrite Hcap, lookup_insert_eq in Hentry. injection Hentry as _ <-.
    cbn [py_str]. split; [apply lower_idem|].
    apply py_in_In. unfold capture in Hrun. cbn [py_str] in Hrun.
    destruct (py_in (lower name) IMAGE_EFFECTS); [reflexivity|discriminate Hrun].
Qed.

Lemma capture_ignores_case_witness :
  lower "find_edges" = "find_edges" ∧ In "find_edges" IMAGE_EFFECTS.
Proof.
  destruct (capture_ignores_case "a.jpg" "Find_Edges" (sample_world 1)) as [_ Hstored].
  apply (Hstored sample_frame "find_edges").
  - reflexivity.
  - vm_compute. reflexivity.
Defined.
